(** * The Stitch Admin API client ([api/stitch.go]), embedded and verified

    The Go file is a thin binding layer: five operations of
    [basicStitchClient], each of which builds a route with [fmt.Sprintf],
    calls the injected [Client], looks at the status code and either decodes
    the body or turns it into an [ErrStitchResponse] with [UnmarshalReader].

    The embedding is shallow.  Strings and byte slices are [string]; a Go
    [(T, error)] result is an [outcome]; the calls on the [Client] and the
    [Close] calls on response bodies are recorded in an explicit [World]
    threaded through a small state monad.  What the file imports and does
    not define (encoding/json, mime, the [auth] and [models] packages, the
    constant [adminBaseURL], the [Client] itself) is taken as a parameter,
    bundled in the classes [Platform] and [Client]. *)

From Stdlib Require Import Ascii NArith ZArith Lia.
From stdpp Require Import base option list gmap strings.

(** ** Strings *)

Definition dquote : ascii := "034"%char.
Definition backslash : ascii := "092"%char.
Definition percent : ascii := "037"%char.

(** A string without the character [%]: as a format it has no directive. *)
Fixpoint plain (s : string) : bool :=
  match s with
  | EmptyString => true
  | String c s' => negb (Ascii.eqb c percent) && plain s'
  end.

(** ** strconv.Quote, as used by the verb [%q]

    Go walks the string rune by rune.  A byte below 0x80 is a rune of its
    own and its rendering is fixed by the table in [quoteByte].  Bytes from
    0x80 up come in maximal runs whose rendering needs UTF-8 decoding and
    the Unicode tables of the Go runtime ([unicode.IsPrint]); a run never
    swallows a byte below 0x80, so each run is rendered on its own, by the
    parameter [quoteNonASCII]. *)

Definition lowerhex (n : N) : ascii :=
  (if n <? 10 then ascii_of_N (48 + n) else ascii_of_N (87 + n))%N.

Definition quoteByte (c : ascii) : string :=
  let n := N_of_ascii c in
  if ((n =? 34) || (n =? 92))%N then String backslash (String c "")
  else if ((32 <=? n) && (n <? 127))%N then String c ""
  else match n with
       | 7%N => "\a"
       | 8%N => "\b"
       | 12%N => "\f"
       | 10%N => "\n"
       | 13%N => "\r"
       | 9%N => "\t"
       | 11%N => "\v"
       | _ => "\x" +:+ String (lowerhex (n / 16)) (String (lowerhex (n mod 16)) "")
       end.

Section Quote.
Variable quoteNonASCII : string → string.

Definition flushRun (run : string) : string :=
  match run with
  | EmptyString => ""
  | _ => quoteNonASCII run
  end.

(** [run] is the run of bytes ≥ 0x80 read so far and not yet rendered. *)
Fixpoint quoteBody (s run : string) : string :=
  match s with
  | EmptyString => flushRun run +:+ String dquote ""
  | String c s' =>
      if (128 <=? N_of_ascii c)%N
      then quoteBody s' (run +:+ String c "")
      else flushRun run +:+ quoteByte c +:+ quoteBody s' ""
  end.

Definition Quote (s : string) : string := String dquote (quoteBody s "").

(** ** fmt.Sprintf

    The directives the file uses are [%s] and [%q], always on operands
    that are strings or errors; an error operand is passed here as its
    [Error()] text, which is what [%s] prints.  [%v] prints a string as
    [%s] does and [%%] prints a percent sign.  A missing operand, a
    trailing [%] and left-over operands are rendered as Go does; any
    other verb is rendered as Go renders a verb that does not apply to
    a string.  Flags, widths and the remaining verbs that do apply to
    strings ([%x], [%X], [%T], ...) are outside this model. *)

Definition directive (verb : ascii) (arg : option string) : string :=
  match arg with
  | None => String percent (String "!" (String verb "(MISSING)"))
  | Some a =>
      if Ascii.eqb verb "s" || Ascii.eqb verb "v" then a
      else if Ascii.eqb verb "q" then Quote a
      else String percent (String "!" (String verb ("(string=" +:+ a +:+ ")")))
  end.

Fixpoint extraOperands (args : list string) : string :=
  match args with
  | [] => ""
  | [a] => "string=" +:+ a
  | a :: rest => "string=" +:+ a +:+ ", " +:+ extraOperands rest
  end.

(** What is appended once the format is used up. *)
Definition leftOver (args : list string) : string :=
  match args with
  | [] => ""
  | _ => String percent ("!(EXTRA " +:+ extraOperands args +:+ ")")
  end.

Fixpoint Sprintf (format : string) (args : list string) : string :=
  match format with
  | EmptyString => leftOver args
  | String c rest =>
      if Ascii.eqb c percent then
        match rest with
        | EmptyString => String percent "!(NOVERB)" +:+ leftOver args
        | String verb rest' =>
            if Ascii.eqb verb percent
            then String percent (Sprintf rest' args)
            else directive verb (head args) +:+ Sprintf rest' (tail args)
        end
      else String c (Sprintf rest args)
  end.
End Quote.


(** ** Errors

    A Go [error] is an interface value.  The file makes three kinds of its
    own: [ErrStitchResponse], [errors.New] for the missing export filename
    and [fmt.Errorf] texts (both an [errorString] here).  The other errors
    it hands on come from encoding/json, from mime, or from the [Client]
    (a failed request, a failed read of a body); they are kept by origin
    and message. *)

Record errStitchResponseData := { Error : string }.

Record ErrStitchResponse := { data : errStitchResponseData }.

Inductive error :=
| errStitch (esr : ErrStitchResponse)
| errorString (msg : string)
| jsonError (msg : string)
| mimeError (msg : string)
| clientError (msg : string).

(** Go's [(T, error)] result.  [Panicked] is a run-time panic that unwinds
    the operation: the only one the file can raise is the nil dereference
    of [app.ClientAppID] in [findAppByClientAppID]. *)
Inductive outcome (A : Type) :=
| Return (a : A)
| Fail (err : error)
| Panicked (msg : string).
Arguments Return {A} a.
Arguments Fail {A} err.
Arguments Panicked {A} msg.

Definition nilDereference : string :=
  "runtime error: invalid memory address or nil pointer dereference".

(** ** Readers and HTTP values *)

(** An [io.Reader] read to its end: the bytes it delivers and, when a
    [Read] fails before EOF, the error of that [Read]. *)
Record Reader := { content : string; failure : option error }.

(** [buf.ReadFrom(r)]: the buffer afterwards and the error. *)
Definition ReadFrom (r : Reader) : string * option error :=
  (content r, failure r).

(** What a [json.Decoder] on a reader reports when [Decode] fails: an error
    raised by encoding/json itself (syntax, a value of the wrong type,
    [io.EOF] on an empty stream), or the error of the failed [Read], handed
    through unchanged. *)
Inductive decodeError :=
| jsonFailure (msg : string)
| readFailure (err : error).

Definition decodeError_error (d : decodeError) : error :=
  match d with
  | jsonFailure msg => jsonError msg
  | readFailure err => err
  end.

Definition MethodGet : string := "GET".
Definition MethodPost : string := "POST".
Definition StatusOK : Z := 200.
Definition StatusNoContent : Z := 204.
Definition StatusNotFound : Z := 404.

(** [http.Header]: canonical key to list of values. *)
Definition Header_Get (h : gmap string (list string)) (key : string) : string :=
  match h !! key with
  | Some (v :: _) => v
  | _ => ""
  end.

(** Modelled from the spec: the struct [RequestOptions] is declared in
    another file of package api; it has an optional body and an optional
    header mapping, and absent means not sent.  An absent body is [None],
    a nil header is [∅]. *)
Record RequestOptions := {
  opt_Body : option string;
  opt_Header : gmap string (list string)
}.

Definition noOptions : RequestOptions := {| opt_Body := None; opt_Header := ∅ |}.

Record Request := {
  req_method : string;
  req_path : string;
  req_options : RequestOptions
}.

(** [res.Body] is an [io.ReadCloser]; [handle] tells the bodies of one
    run apart. *)
Record ReadCloser := { handle : nat; reader : Reader }.

(** The reply of the [Client], before the run has given its body a handle. *)
Record Reply := {
  reply_StatusCode : Z;
  reply_Status : string;
  reply_Header : gmap string (list string);
  reply_Body : Reader
}.

Record Response := {
  StatusCode : Z;
  Status : string;
  Header : gmap string (list string);
  Body : ReadCloser
}.

(** ** The world of a run

    [requests] are the calls of [ExecuteRequest] so far, oldest first;
    [opened] the handles of the bodies the [Client] has handed out;
    [closed] the handles on which [Close] has been called, one entry per
    call. *)
Record World := {
  requests : list Request;
  opened : list nat;
  closed : list nat
}.

Definition M (A : Type) : Type := World → A * World.

(** The monad operations, so that stdpp's [x ← m; k] and [m;; k] apply. *)
#[export] Instance M_ret : MRet M := λ A a w, (a, w).

#[export] Instance M_bind : MBind M :=
  λ A B k m w, let '(a, w') := m w in k a w'.

(** The world after one more [Close] on the body with handle [h]. *)
Definition released (w : World) (h : nat) : World :=
  {| requests := requests w; opened := opened w; closed := closed w ++ [h] |}.

(** [body.Close()] *)
Definition Close (body : ReadCloser) : M unit :=
  λ w, (tt, released w (handle body)).

(** [defer body.Close()] followed by the rest of the function: the call
    runs when the function is left, whether it returns or panics. *)
Definition deferClose {A} (body : ReadCloser) (rest : M A) : M A :=
  a ← rest; Close body;; mret a.

(** ** What the file imports *)

(** The Go libraries and the packages [auth] and [models], as far as the
    file uses them. *)
Class Platform := {
  (** strconv: the rendering of a run of bytes ≥ 0x80 under [%q] *)
  quoteNonASCII : string → string;
  (** encoding/json, [Decoder.Decode] on a buffer: the bytes of the next
      JSON value of the stream, or the error ([io.EOF], a syntax error) *)
  json_readValue : string → string + string;
  (** [json.Unmarshal(data, &esr.data)]: the struct afterwards (Go may
      have stored fields before it reports a type error) and the error *)
  json_Unmarshal_data :
    string → errStitchResponseData → errStitchResponseData * option string;
  (** [mime.ParseMediaType] *)
  mime_ParseMediaType : string → (string * gmap string string) + string;
  (** package auth *)
  Payload : Type;
  AuthResponse : Type;
  json_Marshal : Payload → string + string;
  json_Decode_AuthResponse : Reader → AuthResponse + decodeError;
  (** package models; a [*models.App] may be nil: [None] *)
  App : Type;
  ClientAppID : App → string;
  UserProfile : Type;
  AllGroupIDs : UserProfile → list string;
  json_Decode_Apps : Reader → list (option App) + decodeError;
  json_Decode_UserProfile : Reader → UserProfile + decodeError;
  json_Decode_strings : Reader → list string + decodeError;
  (** the constant of package api that the routes start with, declared
      in another file of the package *)
  adminBaseURL : string
}.

(** Modelled from the spec: the interface [auth.AuthenticationProvider]
    is declared in package auth; it has [Payload()], a serializable
    credential, and [Type()], the provider name. *)
Record AuthenticationProvider `{Platform} := {
  provider_Type : string;
  provider_Payload : Payload
}.

(** Modelled from the spec: the interface [Client] is declared in another
    file of package api; its one operation executes a request given a
    method, a path and options and returns a response with status code,
    headers and a body, or an error.  An implementation may answer the
    same request differently over time: its answer depends on the requests
    already served. *)
Class Client := {
  ExecuteRequest : list Request → Request → Reply + error
}.

(** ** stitch.go *)

Section Stitch.
Context `{Platform}.

Definition Errorf (format : string) (args : list string) : error :=
  errorString (Sprintf quoteNonASCII format args).

Definition authProviderLoginRoute : string :=
  adminBaseURL +:+ "/auth/providers/%s/login".
Definition appExportRoute : string :=
  adminBaseURL +:+ "/groups/%s/apps/%s/export".
Definition appImportRoute : string :=
  adminBaseURL +:+ "/groups/%s/apps/%s/import".
Definition appsByGroupIDRoute : string :=
  adminBaseURL +:+ "/groups/%s/apps".
Definition userProfileRoute : string :=
  adminBaseURL +:+ "/auth/profile".

Definition errExportMissingFilename : error :=
  errorString "the app export response did not specify a filename".

(** [func (esr ErrStitchResponse) Error() string] *)
Definition ErrStitchResponse_Error (esr : ErrStitchResponse) : string :=
  Sprintf quoteNonASCII "error: %s" [Error (data esr)].

(** The method [Error()] of any error value. *)
Definition error_Error (err : error) : string :=
  match err with
  | errStitch esr => ErrStitchResponse_Error esr
  | errorString msg => msg
  | jsonError msg => msg
  | mimeError msg => msg
  | clientError msg => msg
  end.

(** [func (esr *ErrStitchResponse) UnmarshalJSON(data []byte) error]:
    the receiver afterwards and the error. *)
Definition ErrStitchResponse_UnmarshalJSON
    (esr : ErrStitchResponse) (raw : string) : ErrStitchResponse * option error :=
  let '(d, err) := json_Unmarshal_data raw (data esr) in
  ({| data := d |}, jsonError <$> err).

(** [json.NewDecoder(&buf).Decode(&stitchResponse)]: the decoder frames
    the next value of the buffer and, the target being a
    [json.Unmarshaler], hands its bytes to [UnmarshalJSON]. *)
Definition Decode_ErrStitchResponse
    (buf : string) (esr : ErrStitchResponse) : ErrStitchResponse * option error :=
  match json_readValue buf with
  | inr msg => (esr, Some (jsonError msg))
  | inl raw => ErrStitchResponse_UnmarshalJSON esr raw
  end.

(** [var stitchResponse ErrStitchResponse] *)
Definition zeroErrStitchResponse : ErrStitchResponse :=
  {| data := {| Error := "" |} |}.

Definition UnmarshalReader (r : Reader) : error :=
  match ReadFrom r with
  | (_, Some err) => err
  | (buf, None) =>
      let str := buf in
      match Decode_ErrStitchResponse buf zeroErrStitchResponse with
      | (_, Some _) => errStitch {| data := {| Error := str |} |}
      | (stitchResponse, None) => errStitch stitchResponse
      end
  end.

Fixpoint findAppByClientAppID
    (apps : list (option App)) (clientAppID : string) : outcome (option App) :=
  match apps with
  | [] => Return None
  | None :: _ => Panicked nilDereference
  | Some app :: rest =>
      if String.eqb (ClientAppID app) clientAppID
      then Return (Some app)
      else findAppByClientAppID rest clientAppID
  end.

Context `{Client}.

(** The world after one more call of [ExecuteRequest]. *)
Definition served (w : World) (req : Request) (body : option nat) : World :=
  {| requests := requests w ++ [req];
     opened := opened w ++ option_list body;
     closed := closed w |}.

(** The response made of a reply in world [w]: the body gets the number
    of the request as its handle. *)
Definition respond (w : World) (reply : Reply) : Response :=
  {| StatusCode := reply_StatusCode reply;
     Status := reply_Status reply;
     Header := reply_Header reply;
     Body := {| handle := length (requests w); reader := reply_Body reply |} |}.

(** [sc.ExecuteRequest(method, path, options)] *)
Definition executeRequest
    (method path : string) (options : RequestOptions) : M (Response + error) :=
  λ w,
    let req := {| req_method := method; req_path := path; req_options := options |} in
    match ExecuteRequest (requests w) req with
    | inl reply => (inl (respond w reply), served w req (Some (length (requests w))))
    | inr err => (inr err, served w req None)
    end.

Definition Authenticate (authProvider : AuthenticationProvider) : M (outcome AuthResponse) :=
  match json_Marshal (provider_Payload authProvider) with
  | inr msg => mret (Fail (jsonError msg))
  | inl body =>
      r ← executeRequest MethodPost
            (Sprintf quoteNonASCII authProviderLoginRoute [provider_Type authProvider])
            {| opt_Body := Some body;
               opt_Header := {[ "Content-Type" := ["application/json"] ]} |};
      match r with
      | inr err => mret (Fail err)
      | inl res =>
          deferClose (Body res)
            (if negb (StatusCode res =? StatusOK)%Z then
               mret (Fail (Errorf "%s: failed to authenticate: %s"
                             [Status res; error_Error (UnmarshalReader (reader (Body res)))]))
             else
               match json_Decode_AuthResponse (reader (Body res)) with
               | inr err => mret (Fail (decodeError_error err))
               | inl authResponse => mret (Return authResponse)
               end)
      end
  end.

Definition Export (groupID appID : string) : M (outcome (string * ReadCloser)) :=
  r ← executeRequest MethodGet
        (Sprintf quoteNonASCII appExportRoute [groupID; appID]) noOptions;
  match r with
  | inr err => mret (Fail err)
  | inl res =>
      if negb (StatusCode res =? StatusOK)%Z then
        deferClose (Body res) (mret (Fail (UnmarshalReader (reader (Body res)))))
      else
        match mime_ParseMediaType (Header_Get (Header res) "Content-Disposition") with
        | inr msg => Close (Body res);; mret (Fail (mimeError msg))
        | inl (_, params) =>
            let filename := default "" (params !! "filename") in
            if (String.length filename =? 0)%nat then
              Close (Body res);; mret (Fail errExportMissingFilename)
            else mret (Return (filename, Body res))
        end
  end.

Definition invokeImportRoute
    (groupID appID appData strategy : string) (diff : bool) : M (Response + error) :=
  let url := Sprintf quoteNonASCII appImportRoute [groupID; appID] in
  let url := url +:+ Sprintf quoteNonASCII "?strategy=%s" [strategy] in
  let url := if diff then url +:+ "&diff=true" else url in
  executeRequest MethodPost url {| opt_Body := Some appData; opt_Header := ∅ |}.

Definition Diff (groupID appID appData strategy : string) : M (outcome (list string)) :=
  r ← invokeImportRoute groupID appID appData strategy true;
  match r with
  | inr err => mret (Fail err)
  | inl res =>
      deferClose (Body res)
        (if negb (StatusCode res =? StatusOK)%Z then
           mret (Fail (UnmarshalReader (reader (Body res))))
         else
           match json_Decode_strings (reader (Body res)) with
           | inr err => mret (Fail (decodeError_error err))
           | inl diffs => mret (Return diffs)
           end)
  end.

(** [Import] returns a bare [error]: [None] is nil. *)
Definition Import (groupID appID appData strategy : string) : M (option error) :=
  r ← invokeImportRoute groupID appID appData strategy false;
  match r with
  | inr err => mret (Some err)
  | inl res =>
      deferClose (Body res)
        (if negb (StatusCode res =? StatusNoContent)%Z then
           mret (Some (UnmarshalReader (reader (Body res))))
         else mret None)
  end.

Definition fetchAppsByGroupID (groupID : string) : M (outcome (list (option App))) :=
  r ← executeRequest MethodGet
        (Sprintf quoteNonASCII appsByGroupIDRoute [groupID]) noOptions;
  match r with
  | inr err => mret (Fail err)
  | inl res =>
      deferClose (Body res)
        (if negb (StatusCode res =? StatusOK)%Z then
           if (StatusCode res =? StatusNotFound)%Z then mret (Return [])
           else mret (Fail (UnmarshalReader (reader (Body res))))
         else
           match json_Decode_Apps (reader (Body res)) with
           | inr err => mret (Fail (decodeError_error err))
           | inl apps => mret (Return apps)
           end)
  end.

(** The [for] loop over [profileData.AllGroupIDs()] and the [return]
    that follows it. *)
Fixpoint FetchAppByClientAppID_groups
    (groupIDs : list string) (clientAppID : string) : M (outcome App) :=
  match groupIDs with
  | [] => mret (Fail (Errorf "unable to find app with ID: %q" [clientAppID]))
  | groupID :: rest =>
      r ← fetchAppsByGroupID groupID;
      match r with
      | Fail err => mret (Fail err)
      | Panicked msg => mret (Panicked msg)
      | Return apps =>
          match findAppByClientAppID apps clientAppID with
          | Return (Some app) => mret (Return app)
          | Return None => FetchAppByClientAppID_groups rest clientAppID
          | Fail err => mret (Fail err)
          | Panicked msg => mret (Panicked msg)
          end
      end
  end.

Definition FetchAppByClientAppID (clientAppID : string) : M (outcome App) :=
  r ← executeRequest MethodGet userProfileRoute noOptions;
  match r with
  | inr err => mret (Fail err)
  | inl res =>
      deferClose (Body res)
        (if negb (StatusCode res =? StatusOK)%Z then
           mret (Fail (UnmarshalReader (reader (Body res))))
         else
           match json_Decode_UserProfile (reader (Body res)) with
           | inr err => mret (Fail (decodeError_error err))
           | inl profileData =>
               FetchAppByClientAppID_groups (AllGroupIDs profileData) clientAppID
           end)
  end.

(** ** Notions the statements use *)

(** The request [fetchAppsByGroupID] sends for a group. *)
Definition appsRequest (groupID : string) : Request :=
  {| req_method := MethodGet;
     req_path := Sprintf quoteNonASCII appsByGroupIDRoute [groupID];
     req_options := noOptions |}.

Definition profileRequest : Request :=
  {| req_method := MethodGet; req_path := userProfileRoute; req_options := noOptions |}.

(** An entry of a decoded app list that the scan passes over: an app,
    not nil, with another [ClientAppID]. *)
Definition passedOver (clientAppID : string) (entry : option App) : Prop :=
  ∃ app, entry = Some app ∧ ClientAppID app ≠ clientAppID.

(** [Misses id gs w w']: from world [w], [fetchAppsByGroupID] on the
    groups [gs], one after the other, returns each time a list whose
    entries are all passed over, and leaves the world [w']. *)
Inductive Misses (clientAppID : string) : list string → World → World → Prop :=
| Misses_nil w : Misses clientAppID [] w w
| Misses_cons groupID rest apps w w1 w2 :
    fetchAppsByGroupID groupID w = (Return apps, w1) →
    Forall (passedOver clientAppID) apps →
    Misses clientAppID rest w1 w2 →
    Misses clientAppID (groupID :: rest) w w2.

(** Between [w] and [w'] every body that was handed out was closed, once:
    the new handles [hs] are fresh and distinct, and the new [Close]
    calls are a rearrangement of them. *)
Definition balanced (w w' : World) : Prop :=
  ∃ hs : list nat,
    opened w' = opened w ++ hs ∧
    closed w' ≡ₚ closed w ++ hs ∧
    NoDup hs ∧
    Forall (λ h, length (requests w) ≤ h < length (requests w')) hs ∧
    length (requests w) ≤ length (requests w').

End Stitch.

(** Printable ASCII other than the double quote and the backslash: the
    bytes that [%q] copies as they are. *)
Fixpoint verbatim (s : string) : bool :=
  match s with
  | EmptyString => true
  | String c s' =>
      let n := N_of_ascii c in
      ((32 <=? n) && (n <? 127) && negb (n =? 34) && negb (n =? 92))%N && verbatim s'
  end.

(** ** A test double

    Canned libraries and a canned [Client], in the manner of the mock
    client a Go test of this package would use.  The codecs know a handful
    of bodies; the client answers by path.  The theorems below do not
    depend on them: they are stated for every [Platform] and [Client], and
    the double only serves to run them on concrete requests. *)

Module Mock.

Definition quoted (s : string) : string :=
  String dquote (s +:+ String dquote "").

(** [s] without the prefix [p], when it starts with it. *)
Fixpoint stripPrefix (p s : string) : option string :=
  match p, s with
  | EmptyString, _ => Some s
  | String a p', String b s' => if Ascii.eqb a b then stripPrefix p' s' else None
  | _, _ => None
  end.

(** Looks a key up in a canned table. *)
Fixpoint canned {A} (table : list (string * A)) (key : string) : option A :=
  match table with
  | [] => None
  | (k, a) :: rest => if String.eqb k key then Some a else canned rest key
  end.

(** The error bodies the double can parse: [{"error":"<m>"}] for a few
    messages [m], the empty object and [null]. *)
Definition errorBody (m : string) : string :=
  "{" +:+ quoted "error" +:+ ":" +:+ quoted m +:+ "}".

Definition knownMessages : list string :=
  [""; "invalid session"; "app not found"; "strategy not supported"].

Definition unmarshalData
    (raw : string) (d : errStitchResponseData) : errStitchResponseData * option string :=
  match canned ((λ m, (errorBody m, m)) <$> knownMessages) raw with
  | Some m => ({| Error := m |}, None)
  | None =>
      if String.eqb raw "{}" || String.eqb raw "null" then (d, None)
      else (d, Some "json: cannot unmarshal value into Go value of type api.errStitchResponseData")
  end.

Definition readValue (buf : string) : string + string :=
  match buf with
  | EmptyString => inr "EOF"
  | String c _ =>
      if Ascii.eqb c "{" || Ascii.eqb c "n" then inl buf
      else inr "invalid character looking for beginning of value"
  end.

Definition parseMediaType (v : string) : (string * gmap string string) + string :=
  match v with
  | EmptyString => inr "mime: no media type"
  | _ =>
      match stripPrefix "attachment; filename=" v with
      | Some name => inl ("attachment", {[ "filename" := name ]})
      | None =>
          if String.eqb v "attachment" then inl ("attachment", ∅)
          else inr "mime: invalid media parameter"
      end
  end.

(** A decoder from a table of known bodies. *)
Definition decodeWith {A} (table : list (string * A)) (r : Reader) : A + decodeError :=
  match failure r with
  | Some err => inr (readFailure err)
  | None =>
      match canned table (content r) with
      | Some a => inl a
      | None =>
          match content r with
          | EmptyString => inr (jsonFailure "EOF")
          | _ => inr (jsonFailure "invalid character looking for beginning of value")
          end
      end
  end.

Record app := { app_ClientAppID : string; app_Name : string }.

Definition appX : app := {| app_ClientAppID := "x"; app_Name := "first" |}.
Definition appY : app := {| app_ClientAppID := "y"; app_Name := "second" |}.

Definition appJSON (a : app) : string :=
  "{" +:+ quoted "client_app_id" +:+ ":" +:+ quoted (app_ClientAppID a) +:+ ","
      +:+ quoted "name" +:+ ":" +:+ quoted (app_Name a) +:+ "}".

Definition appsBodyYX : string := "[" +:+ appJSON appY +:+ "," +:+ appJSON appX +:+ "]".
Definition appsBodyY : string := "[" +:+ appJSON appY +:+ "]".

Definition profileBody (groups : string) : string :=
  "{" +:+ quoted "groups" +:+ ":[" +:+ groups +:+ "]}".
Definition profileG1G2 : string := profileBody (quoted "g1" +:+ "," +:+ quoted "g2").

Definition tokenBody : string :=
  "{" +:+ quoted "access_token" +:+ ":" +:+ quoted "t0k3n" +:+ "}".
Definition diffBody : string := "[" +:+ quoted "added service: http" +:+ "]".

(** A payload is the text it marshals to; [None] stands for a value
    encoding/json cannot marshal (a channel, a function). *)
#[export] Instance platform : Platform := {|
  quoteNonASCII := λ run, run;
  json_readValue := readValue;
  json_Unmarshal_data := unmarshalData;
  mime_ParseMediaType := parseMediaType;
  Payload := option string;
  AuthResponse := string;
  json_Marshal := λ p, from_option inl (inr "json: unsupported type: chan int") p;
  json_Decode_AuthResponse := decodeWith [(tokenBody, "t0k3n")];
  App := app;
  ClientAppID := app_ClientAppID;
  UserProfile := list string;
  AllGroupIDs := λ p, p;
  json_Decode_Apps :=
    decodeWith [("[]", []); ("[null]", [None]);
                (appsBodyY, [Some appY]); (appsBodyYX, [Some appY; Some appX])];
  json_Decode_UserProfile :=
    decodeWith [("{}", []); (profileBody "", []); (profileG1G2, ["g1"; "g2"])];
  json_Decode_strings := decodeWith [("[]", []); (diffBody, ["added service: http"])];
  adminBaseURL := "/api/admin/v3.0"
|}.

Definition reply (code : Z) (status : string)
    (header : gmap string (list string)) (body : string) : Reply :=
  {| reply_StatusCode := code; reply_Status := status;
     reply_Header := header;
     reply_Body := {| content := body; failure := None |} |}.

(** A client that answers by path, whatever came before; an unknown
    path is a refused connection. *)
Definition cannedClient (table : list (string * Reply)) : Client :=
  {| ExecuteRequest := λ _ req,
       match canned table (req_path req) with
       | Some r => inl r
       | None => inr (clientError "dial tcp: connection refused")
       end |}.

Definition world0 : World := {| requests := []; opened := []; closed := [] |}.

(** The scenario of a lookup: the profile lists g1 and g2, g1 is not
    found, g2 holds the apps y and x. *)
Definition lookupTable : list (string * Reply) :=
  [ ("/api/admin/v3.0/auth/profile", reply 200 "200 OK" ∅ profileG1G2);
    ("/api/admin/v3.0/groups/g1/apps", reply 404 "404 Not Found" ∅ "");
    ("/api/admin/v3.0/groups/g2/apps", reply 200 "200 OK" ∅ appsBodyYX) ].

(** A profile without groups. *)
Definition loneTable : list (string * Reply) :=
  [ ("/api/admin/v3.0/auth/profile", reply 200 "200 OK" ∅ "{}") ].

(** g1 answers 500, g2 would hold the app. *)
Definition brokenTable : list (string * Reply) :=
  [ ("/api/admin/v3.0/auth/profile", reply 200 "200 OK" ∅ profileG1G2);
    ("/api/admin/v3.0/groups/g1/apps",
       reply 500 "500 Internal Server Error" ∅ (errorBody "invalid session"));
    ("/api/admin/v3.0/groups/g2/apps", reply 200 "200 OK" ∅ appsBodyYX) ].

Definition exportTable (disposition : list string) : list (string * Reply) :=
  [ ("/api/admin/v3.0/groups/g1/apps/a1/export",
       reply 200 "200 OK" {[ "Content-Disposition" := disposition ]} "PK-archive") ].

Definition importTable (code : Z) (status body : string) : list (string * Reply) :=
  [ ("/api/admin/v3.0/groups/g1/apps/a1/import?strategy=merge", reply code status ∅ body);
    ("/api/admin/v3.0/groups/g1/apps/a1/import?strategy=merge&diff=true",
       reply 200 "200 OK" ∅ diffBody) ].

Definition loginTable (code : Z) (status body : string) : list (string * Reply) :=
  [ ("/api/admin/v3.0/auth/providers/api-key/login", reply code status ∅ body) ].

Definition apiKey (payload : option string) : AuthenticationProvider :=
  {| provider_Type := "api-key"; provider_Payload := payload |}.

(** Two error bodies: one in the shape the service uses, one that is
    not JSON at all. *)
Definition sessionReader : Reader :=
  {| content := errorBody "invalid session"; failure := None |}.
Definition htmlReader : Reader :=
  {| content := "<html>502 Bad Gateway</html>"; failure := None |}.

(** A client app ID with a double quote in it: a, double quote, b. *)
Definition oddID : string := String "a" (String dquote "b").

Definition lookupClient : Client := cannedClient lookupTable.
Definition loneClient : Client := cannedClient loneTable.
Definition brokenClient : Client := cannedClient brokenTable.
Definition exportClient : Client :=
  cannedClient (exportTable ["attachment; filename=app.zip"]).
Definition rejectingClient : Client :=
  cannedClient (importTable 400 "400 Bad Request" (errorBody "strategy not supported")).
Definition unauthorizedClient : Client :=
  cannedClient (loginTable 401 "401 Unauthorized" (errorBody "invalid session")).

(** Further scenarios: a client that is down, one that answers the
    profile and then is down, one whose first group lists a null entry,
    one that rejects the profile request, an export with a header that
    does not parse, a login and an import that succeed. *)
Definition downClient : Client := cannedClient [].

Definition partialClient : Client :=
  cannedClient [ ("/api/admin/v3.0/auth/profile", reply 200 "200 OK" ∅ profileG1G2) ].

Definition nullClient : Client :=
  cannedClient
    [ ("/api/admin/v3.0/auth/profile", reply 200 "200 OK" ∅ profileG1G2);
      ("/api/admin/v3.0/groups/g1/apps", reply 200 "200 OK" ∅ "[null]");
      ("/api/admin/v3.0/groups/g2/apps", reply 200 "200 OK" ∅ appsBodyYX) ].

Definition noProfileClient : Client :=
  cannedClient
    [ ("/api/admin/v3.0/auth/profile",
         reply 401 "401 Unauthorized" ∅ (errorBody "invalid session")) ].

Definition garbledExportClient : Client :=
  cannedClient (exportTable ["attachment; filename"]).

Definition loginClient : Client := cannedClient (loginTable 200 "200 OK" tokenBody).

Definition acceptingClient : Client :=
  cannedClient (importTable 204 "204 No Content" "").

End Mock.

(** * Verification *)

(** ** Formats *)

Lemma Sprintf_plain (q : string → string) (lit rest : string) (args : list string) :
  plain lit = true →
  Sprintf q (lit +:+ rest) args = lit +:+ Sprintf q rest args.
Proof.
  induction lit as [|c lit IH]; simpl; [done|].
  intros [Hc Hlit]%andb_prop.
  apply negb_true_iff in Hc. rewrite Hc. by rewrite IH.
Qed.

Lemma quoteBody_verbatim (q : string → string) (s : string) :
  verbatim s = true →
  quoteBody q s "" = s +:+ String dquote "".
Proof.
  induction s as [|c s IH]; simpl; [done|].
  intros [Hc Hs]%andb_prop.
  apply andb_prop in Hc as [Hc H92]. apply andb_prop in Hc as [Hc H34].
  apply andb_prop in Hc as [Hlo Hhi].
  apply negb_true_iff in H92, H34.
  assert ((128 <=? N_of_ascii c)%N = false) as ->.
  { apply N.leb_gt. apply N.ltb_lt in Hhi. lia. }
  unfold quoteByte. rewrite H34, H92, Hlo, Hhi. simpl. by rewrite IH.
Qed.

Lemma Quote_verbatim (q : string → string) (s : string) :
  verbatim s = true →
  Quote q s = String dquote (s +:+ String dquote "").
Proof. intros Hs. unfold Quote. by rewrite quoteBody_verbatim. Qed.

Lemma append_assoc (a b c : string) : (a +:+ b) +:+ c = a +:+ (b +:+ c).
Proof.
  induction a as [|x a IH]; [done|].
  change (String x ((a +:+ b) +:+ c) = String x (a +:+ (b +:+ c))).
  by rewrite IH.
Qed.

Lemma append_cons (x : ascii) (a b : string) : String x a +:+ b = String x (a +:+ b).
Proof. reflexivity. Qed.

Lemma append_empty_l (a : string) : "" +:+ a = a.
Proof. reflexivity. Qed.

Lemma append_empty_r (a : string) : a +:+ "" = a.
Proof.
  induction a as [|x a IH]; [done|].
  change (String x (a +:+ "") = String x a).
  by rewrite IH.
Qed.

(** ** Worlds *)

Ltac go_unfold :=
  unfold deferClose, Close, mbind, M_bind, mret, M_ret in *.

Section Facts.
Context `{Platform} `{Client}.

Lemma executeRequest_inl method path options w res w' :
  executeRequest method path options w = (inl res, w') →
  ∃ reply,
    ExecuteRequest (requests w)
      {| req_method := method; req_path := path; req_options := options |} = inl reply ∧
    res = respond w reply ∧
    w' = served w {| req_method := method; req_path := path; req_options := options |}
           (Some (length (requests w))).
Proof.
  unfold executeRequest. destruct (ExecuteRequest _ _) as [reply|err]; [|done].
  intros [= <- <-]. by exists reply.
Qed.

Lemma executeRequest_inr method path options w err w' :
  executeRequest method path options w = (inr err, w') →
  w' = served w {| req_method := method; req_path := path; req_options := options |} None.
Proof.
  unfold executeRequest. destruct (ExecuteRequest _ _) as [reply|e]; [done|].
  by intros [= <- <-].
Qed.

Lemma executeRequest_requests method path options w :
  requests (executeRequest method path options w).2 =
  requests w ++ [{| req_method := method; req_path := path; req_options := options |}].
Proof. unfold executeRequest. by destruct (ExecuteRequest _ _). Qed.

Lemma balanced_refl w : balanced w w.
Proof.
  exists []. rewrite !app_nil_r. repeat split; auto using NoDup_nil_2.
Qed.

Lemma balanced_trans w1 w2 w3 :
  balanced w1 w2 → balanced w2 w3 → balanced w1 w3.
Proof.
  intros (hs & Ho & Hc & Hn & Hb & Hl) (hs' & Ho' & Hc' & Hn' & Hb' & Hl').
  exists (hs ++ hs'). repeat split.
  - by rewrite Ho', Ho, List.app_assoc.
  - by rewrite Hc', Hc, List.app_assoc.
  - apply NoDup_app. split_and!; [done| |done].
    intros h Hin Hin'.
    rewrite Forall_forall in Hb. rewrite Forall_forall in Hb'.
    specialize (Hb _ Hin). specialize (Hb' _ Hin'). lia.
  - apply Forall_app. split.
    + eapply Forall_impl; [exact Hb|]. simpl. intros; lia.
    + eapply Forall_impl; [exact Hb'|]. simpl. intros; lia.
  - lia.
Qed.

(** No body handed out: nothing to close. *)
Lemma balanced_served_none w req : balanced w (served w req None).
Proof.
  exists []. simpl. rewrite !app_nil_r, length_app. simpl.
  repeat split; auto using NoDup_nil_2. lia.
Qed.

(** A body handed out, then whatever is balanced, then its [Close]. *)
Lemma balanced_bracket w req w2 :
  balanced (served w req (Some (length (requests w)))) w2 →
  balanced w (released w2 (length (requests w))).
Proof.
  intros (hs & Ho & Hc & Hn & Hb & Hl). simpl in *.
  rewrite length_app in Hb, Hl. simpl in *.
  exists (length (requests w) :: hs). simpl. repeat split.
  - by rewrite Ho, <- List.app_assoc.
  - rewrite Hc. rewrite <- List.app_assoc. apply Permutation_app_head.
    symmetry. apply Permutation_cons_append.
  - apply NoDup_cons. split; [|done].
    intros Hin. rewrite Forall_forall in Hb. specialize (Hb _ Hin). lia.
  - apply Forall_cons. split; [lia|].
    eapply Forall_impl; [exact Hb|]. simpl. intros; lia.
  - lia.
Qed.

Lemma fetchAppsByGroupID_balanced groupID w :
  balanced w (fetchAppsByGroupID groupID w).2.
Proof.
  unfold fetchAppsByGroupID. go_unfold.
  destruct (executeRequest _ _ _ w) as [[res|err] w1] eqn:Hex.
  - apply executeRequest_inl in Hex as (reply & _ & -> & ->).
    repeat case_match; simplify_eq; simpl;
      eapply balanced_bracket, balanced_refl.
  - apply executeRequest_inr in Hex as ->. apply balanced_served_none.
Qed.

Lemma FetchAppByClientAppID_groups_balanced groupIDs clientAppID w :
  balanced w (FetchAppByClientAppID_groups groupIDs clientAppID w).2.
Proof.
  revert w. induction groupIDs as [|g rest IH]; intros w; simpl.
  - apply balanced_refl.
  - go_unfold.
    pose proof (fetchAppsByGroupID_balanced g w) as Hb.
    destruct (fetchAppsByGroupID g w) as [r w1]. simpl in Hb.
    destruct r as [apps|err|msg]; [|done..].
    destruct (findAppByClientAppID apps clientAppID) as [[app|]|err|msg]; try done.
    eapply balanced_trans; [exact Hb|apply IH].
Qed.

End Facts.

(** ** The claims *)

(** Brings nested appends to one right-nested chain. *)
Ltac chain :=
  repeat first [rewrite append_assoc | rewrite append_empty_r
               | rewrite append_cons | rewrite append_empty_l | progress simpl].

Section Claims.
Context `{Platform} `{Client}.

Lemma ErrStitchResponse_Error_text (msg : string) :
  error_Error (errStitch {| data := {| Error := msg |} |}) = "error: " +:+ msg.
Proof.
  unfold error_Error, ErrStitchResponse_Error. simpl. by rewrite append_empty_r.
Qed.

(** What [UnmarshalReader] returns, by case. *)
Lemma UnmarshalReader_cases (r : Reader) :
  UnmarshalReader r =
  match failure r with
  | Some err => err
  | None =>
      match Decode_ErrStitchResponse (content r) zeroErrStitchResponse with
      | (_, Some _) => errStitch {| data := {| Error := content r |} |}
      | (esr, None) => errStitch esr
      end
  end.
Proof. unfold UnmarshalReader, ReadFrom. by destruct (failure r). Qed.

(** A body that reads to its end becomes an [ErrStitchResponse]. *)
Lemma UnmarshalReader_readable (r : Reader) :
  failure r = None →
  ∃ msg,
    UnmarshalReader r = errStitch {| data := {| Error := msg |} |} ∧
    error_Error (UnmarshalReader r) = "error: " +:+ msg.
Proof.
  intros Hread. rewrite UnmarshalReader_cases, Hread.
  destruct (Decode_ErrStitchResponse _ _) as [[[msg]] [err|]].
  - exists (content r). split; [done|]. apply ErrStitchResponse_Error_text.
  - exists msg. split; [done|]. apply ErrStitchResponse_Error_text.
Qed.

(** C1. Error normalization: for a body whose bytes read successfully,
    [UnmarshalReader] returns an [ErrStitchResponse]; when the bytes
    decode, its message is the decoded [error] field, whatever it is;
    when decoding fails, whatever the reason, its message is the
    buffered body text as it is; and its [Error()] text is "error: "
    followed by that message. *)
Theorem UnmarshalReader_message (r : Reader) :
  failure r = None →
  ∃ msg,
    UnmarshalReader r = errStitch {| data := {| Error := msg |} |} ∧
    (∀ esr, Decode_ErrStitchResponse (content r) zeroErrStitchResponse = (esr, None) →
            msg = Error (data esr)) ∧
    (∀ esr err, Decode_ErrStitchResponse (content r) zeroErrStitchResponse = (esr, Some err) →
                msg = content r) ∧
    error_Error (UnmarshalReader r) = "error: " +:+ msg.
Proof.
  intros Hread. rewrite UnmarshalReader_cases, Hread.
  destruct (Decode_ErrStitchResponse _ _) as [[[msg]] [err|]].
  - exists (content r). split_and!; [done|by intros ? [=]|done|].
    apply ErrStitchResponse_Error_text.
  - exists msg. split_and!; [done|by intros ? [= <-]|by intros ? ? [=]|].
    apply ErrStitchResponse_Error_text.
Qed.

(** C8. Error normalization is total: on every reader [UnmarshalReader]
    returns an error value.  When the body reads to its end the value is
    an [ErrStitchResponse], whose message is the raw body text whenever
    decoding fails; the value is something else only when reading the
    body failed, and then it is the error of that read. *)
Theorem UnmarshalReader_total (r : Reader) :
  (failure r = None →
     ∃ msg, UnmarshalReader r = errStitch {| data := {| Error := msg |} |} ∧
            (∀ esr err,
               Decode_ErrStitchResponse (content r) zeroErrStitchResponse = (esr, Some err) →
               msg = content r)) ∧
  (∀ err, failure r = Some err → UnmarshalReader r = err) ∧
  ((∀ esr, UnmarshalReader r ≠ errStitch esr) →
     ∃ err, failure r = Some err ∧ UnmarshalReader r = err).
Proof.
  rewrite UnmarshalReader_cases. split_and!.
  - intros ->. destruct (Decode_ErrStitchResponse _ _) as [[[msg]] [err|]].
    + exists (content r). by split.
    + exists msg. split; [done|]. by intros ? ? [=].
  - by intros err ->.
  - destruct (failure r) as [err|]; [by eauto|].
    intros Hne. exfalso.
    destruct (Decode_ErrStitchResponse _ _) as [esr [err|]]; by eapply Hne.
Qed.

(** C10. When [json.Marshal] of the provider's payload fails,
    [Authenticate] returns that error at once and leaves the world as it
    was: no call of [ExecuteRequest] is made. *)
Theorem Authenticate_marshal_failure
    (authProvider : AuthenticationProvider) (msg : string) (w : World) :
  json_Marshal (provider_Payload authProvider) = inr msg →
  Authenticate authProvider w = (Fail (jsonError msg), w) ∧
  requests (Authenticate authProvider w).2 = requests w.
Proof. unfold Authenticate. intros ->. by split. Qed.

(** The path [invokeImportRoute] builds. *)
Lemma importRoute_path (groupID appID strategy : string) (diff : bool) :
  plain adminBaseURL = true →
  (let url := Sprintf quoteNonASCII appImportRoute [groupID; appID] in
   let url := url +:+ Sprintf quoteNonASCII "?strategy=%s" [strategy] in
   if diff then url +:+ "&diff=true" else url) =
  adminBaseURL +:+ "/groups/" +:+ groupID +:+ "/apps/" +:+ appID
    +:+ "/import?strategy=" +:+ strategy +:+ (if diff then "&diff=true" else "").
Proof.
  intros Hbase. unfold appImportRoute. rewrite Sprintf_plain by done.
  destruct diff; chain; reflexivity.
Qed.

Lemma deferClose_run {A} (body : ReadCloser) (rest : M A) (w : World) :
  deferClose body rest w = ((rest w).1, released (rest w).2 (handle body)).
Proof. go_unfold. by destruct (rest w). Qed.

Lemma invokeImportRoute_request (groupID appID appData strategy : string) (diff : bool) w :
  plain adminBaseURL = true →
  invokeImportRoute groupID appID appData strategy diff w =
  executeRequest MethodPost
    (adminBaseURL +:+ "/groups/" +:+ groupID +:+ "/apps/" +:+ appID
       +:+ "/import?strategy=" +:+ strategy +:+ (if diff then "&diff=true" else ""))
    {| opt_Body := Some appData; opt_Header := ∅ |} w.
Proof.
  intros Hbase. unfold invokeImportRoute.
  by rewrite <- (importRoute_path groupID appID strategy diff Hbase).
Qed.

Lemma Import_requests groupID appID appData strategy w :
  requests (Import groupID appID appData strategy w).2 =
  requests (invokeImportRoute groupID appID appData strategy false w).2.
Proof.
  unfold Import. unfold mbind, M_bind.
  destruct (invokeImportRoute _ _ _ _ _ w) as [[res|err] w1]; [|done].
  rewrite deferClose_run. by case_match.
Qed.

Lemma Diff_requests groupID appID appData strategy w :
  requests (Diff groupID appID appData strategy w).2 =
  requests (invokeImportRoute groupID appID appData strategy true w).2.
Proof.
  unfold Diff. unfold mbind, M_bind.
  destruct (invokeImportRoute _ _ _ _ _ w) as [[res|err] w1]; [|done].
  rewrite deferClose_run. by repeat case_match.
Qed.

(** C5. Route of [Import] and [Diff]: whatever the arguments, each of
    them sends one request, a POST to
    [/groups/{groupID}/apps/{appID}/import?strategy={strategy}] under the
    admin base URL, with the bytes of [appData] as body and no header;
    [Diff] appends [&diff=true] to the path and [Import] does not.  The
    base URL is taken to hold no [%], being part of the format. *)
Theorem import_route (groupID appID appData strategy : string) (w : World) :
  plain adminBaseURL = true →
  let target :=
    adminBaseURL +:+ "/groups/" +:+ groupID +:+ "/apps/" +:+ appID
      +:+ "/import?strategy=" +:+ strategy in
  let post path :=
    {| req_method := "POST"; req_path := path;
       req_options := {| opt_Body := Some appData; opt_Header := ∅ |} |} in
  requests (Import groupID appID appData strategy w).2 = requests w ++ [post target] ∧
  requests (Diff groupID appID appData strategy w).2 =
    requests w ++ [post (target +:+ "&diff=true")].
Proof.
  intros Hbase target post. split.
  - rewrite Import_requests, invokeImportRoute_request by done.
    rewrite executeRequest_requests. subst target post. cbv beta.
    by rewrite append_empty_r.
  - rewrite Diff_requests, invokeImportRoute_request by done.
    rewrite executeRequest_requests. subst target post. cbv beta.
    by rewrite !append_assoc.
Qed.

(** C6. [Import] returns a nil error exactly when the status of the
    response is 204: on 204 the error is nil, on any other status it is
    what [UnmarshalReader] makes of the response body, which is never
    nil and is an [ErrStitchResponse] when the body reads to its end. *)
Theorem Import_status (groupID appID appData strategy : string) (w w1 : World)
    (res : Response) :
  invokeImportRoute groupID appID appData strategy false w = (inl res, w1) →
  (StatusCode res = StatusNoContent →
     (Import groupID appID appData strategy w).1 = None) ∧
  (StatusCode res ≠ StatusNoContent →
     (Import groupID appID appData strategy w).1 =
       Some (UnmarshalReader (reader (Body res))) ∧
     (failure (reader (Body res)) = None →
        ∃ msg, (Import groupID appID appData strategy w).1 =
                 Some (errStitch {| data := {| Error := msg |} |}))) ∧
  ((Import groupID appID appData strategy w).1 = None ↔
     StatusCode res = StatusNoContent).
Proof.
  intros Hres. unfold Import. unfold mbind, M_bind. rewrite Hres.
  rewrite deferClose_run. simpl.
  destruct (Z.eqb_spec (StatusCode res) StatusNoContent) as [Heq|Hne]; simpl.
  - split_and!; [done|done|done].
  - split_and!; [done| |by split].
    intros _. split; [done|]. intros Hread.
    destruct (UnmarshalReader_readable _ Hread) as (msg & -> & _). by exists msg.
Qed.

(** C4. [Export], once the [Client] has answered.  On status 200 with a
    Content-Disposition header that parses: a non-empty [filename]
    parameter is returned together with the response body, on which
    [Export] has made no [Close] call; an absent or empty [filename]
    makes [Export] close the body and fail with the error "the app
    export response did not specify a filename".  On any other status
    [Export] closes the body and returns only what [UnmarshalReader]
    makes of it. *)
Theorem Export_result (groupID appID : string) (w w1 : World) (res : Response) :
  executeRequest MethodGet
    (Sprintf quoteNonASCII appExportRoute [groupID; appID]) noOptions w = (inl res, w1) →
  (StatusCode res = StatusOK →
     ∀ mediatype params,
       mime_ParseMediaType (Header_Get (Header res) "Content-Disposition")
         = inl (mediatype, params) →
       (∀ filename, params !! "filename" = Some filename → filename ≠ "" →
          Export groupID appID w = (Return (filename, Body res), w1) ∧
          closed w1 = closed w) ∧
       (params !! "filename" = None ∨ params !! "filename" = Some "" →
          Export groupID appID w =
            (Fail errExportMissingFilename, released w1 (handle (Body res))) ∧
          error_Error errExportMissingFilename =
            "the app export response did not specify a filename")) ∧
  (StatusCode res ≠ StatusOK →
     Export groupID appID w =
       (Fail (UnmarshalReader (reader (Body res))), released w1 (handle (Body res)))).
Proof.
  intros Hres. unfold Export. unfold mbind, M_bind. rewrite Hres.
  apply executeRequest_inl in Hres as (reply & _ & _ & Hw1).
  split.
  - intros Hok mediatype params Hparse.
    apply Z.eqb_eq in Hok. rewrite Hok, Hparse. simpl. split.
    + intros filename -> Hne. simpl.
      destruct filename as [|c rest]; [done|]. simpl. by rewrite Hw1.
    + by intros [-> | ->].
  - intros Hne. apply Z.eqb_neq in Hne. rewrite Hne. simpl.
    by rewrite deferClose_run.
Qed.

(** C7. [Authenticate], once the payload is marshalled and the [Client]
    has answered.  On status 200 the body is decoded as an
    [auth.Response]; when that fails the decoder's error is returned as
    it is, and an error raised by encoding/json is no
    [ErrStitchResponse].  On any other status the error returned has
    the text: the status line, then ": failed to authenticate: ", then
    the [Error()] text of what [UnmarshalReader] makes of the body,
    which is "error: " and the message when the body reads to its
    end. *)
Theorem Authenticate_result
    (authProvider : AuthenticationProvider) (body : string) (w w1 : World)
    (res : Response) :
  json_Marshal (provider_Payload authProvider) = inl body →
  executeRequest MethodPost
    (Sprintf quoteNonASCII authProviderLoginRoute [provider_Type authProvider])
    {| opt_Body := Some body;
       opt_Header := {[ "Content-Type" := ["application/json"] ]} |} w = (inl res, w1) →
  (StatusCode res = StatusOK →
     (∀ authResponse,
        json_Decode_AuthResponse (reader (Body res)) = inl authResponse →
        Authenticate authProvider w =
          (Return authResponse, released w1 (handle (Body res)))) ∧
     (∀ d,
        json_Decode_AuthResponse (reader (Body res)) = inr d →
        Authenticate authProvider w =
          (Fail (decodeError_error d), released w1 (handle (Body res))) ∧
        (∀ msg, d = jsonFailure msg → ∀ esr, decodeError_error d ≠ errStitch esr))) ∧
  (StatusCode res ≠ StatusOK →
     ∃ err,
       Authenticate authProvider w = (Fail err, released w1 (handle (Body res))) ∧
       error_Error err =
         Status res +:+ ": failed to authenticate: "
           +:+ error_Error (UnmarshalReader (reader (Body res))) ∧
       (failure (reader (Body res)) = None →
          ∃ msg, UnmarshalReader (reader (Body res))
                   = errStitch {| data := {| Error := msg |} |} ∧
                 error_Error err =
                   Status res +:+ ": failed to authenticate: error: " +:+ msg)).
Proof.
  intros Hbody Hres. unfold Authenticate. rewrite Hbody.
  unfold mbind, M_bind. rewrite Hres. rewrite deferClose_run.
  split.
  - intros Hok. apply Z.eqb_eq in Hok. rewrite Hok. simpl. split.
    + by intros authResponse ->.
    + intros d ->. split; [done|]. by intros msg -> esr.
  - intros Hne. apply Z.eqb_neq in Hne. rewrite Hne. simpl.
    eexists. split; [done|].
    assert (∀ a b, Sprintf quoteNonASCII "%s: failed to authenticate: %s" [a; b]
                   = a +:+ ": failed to authenticate: " +:+ b) as Hfmt.
    { intros a b. simpl. by rewrite append_empty_r. }
    split.
    + simpl. apply Hfmt.
    + intros Hread.
      destruct (UnmarshalReader_readable _ Hread) as (msg & Heq & Htext).
      exists msg. split; [done|].
      unfold Errorf. cbn [error_Error]. by rewrite Hfmt, Htext.
Qed.

(** C9. Every body handed out is closed: between the start and the end
    of [Authenticate], [Import], [Diff], [fetchAppsByGroupID] and
    [FetchAppByClientAppID], whatever the outcome, each response body
    the [Client] handed out has had one [Close] call.  So has the body
    of [Export] on each of its failures; when [Export] returns a
    filename, the body it returns with it is the one it was handed and
    it has made no [Close] call on it. *)
Theorem bodies_closed :
  (∀ authProvider w, balanced w (Authenticate authProvider w).2) ∧
  (∀ groupID appID appData strategy w,
     balanced w (Import groupID appID appData strategy w).2) ∧
  (∀ groupID appID appData strategy w,
     balanced w (Diff groupID appID appData strategy w).2) ∧
  (∀ groupID w, balanced w (fetchAppsByGroupID groupID w).2) ∧
  (∀ clientAppID w, balanced w (FetchAppByClientAppID clientAppID w).2) ∧
  (∀ groupID appID w,
     match (Export groupID appID w).1 with
     | Return (_, body) =>
         handle body = length (requests w) ∧
         opened (Export groupID appID w).2 = opened w ++ [handle body] ∧
         closed (Export groupID appID w).2 = closed w ∧
         (Forall (λ h, h < length (requests w)) (closed w) →
          handle body ∉ closed (Export groupID appID w).2)
     | _ => balanced w (Export groupID appID w).2
     end).
Proof.
  split_and!.
  - intros authProvider w. unfold Authenticate.
    destruct (json_Marshal _) as [body|msg]; [|apply balanced_refl].
    unfold mbind, M_bind.
    destruct (executeRequest _ _ _ w) as [[res|err] w1] eqn:Hex.
    + apply executeRequest_inl in Hex as (reply & _ & -> & ->).
      rewrite deferClose_run.
      repeat case_match; simpl; eapply balanced_bracket, balanced_refl.
    + apply executeRequest_inr in Hex as ->. apply balanced_served_none.
  - intros groupID appID appData strategy w. unfold Import, invokeImportRoute.
    unfold mbind, M_bind.
    destruct (executeRequest _ _ _ w) as [[res|err] w1] eqn:Hex.
    + apply executeRequest_inl in Hex as (reply & _ & -> & ->).
      rewrite deferClose_run.
      repeat case_match; simpl; eapply balanced_bracket, balanced_refl.
    + apply executeRequest_inr in Hex as ->. apply balanced_served_none.
  - intros groupID appID appData strategy w. unfold Diff, invokeImportRoute.
    unfold mbind, M_bind.
    destruct (executeRequest _ _ _ w) as [[res|err] w1] eqn:Hex.
    + apply executeRequest_inl in Hex as (reply & _ & -> & ->).
      rewrite deferClose_run.
      repeat case_match; simpl; eapply balanced_bracket, balanced_refl.
    + apply executeRequest_inr in Hex as ->. apply balanced_served_none.
  - apply fetchAppsByGroupID_balanced.
  - intros clientAppID w. unfold FetchAppByClientAppID.
    unfold mbind, M_bind.
    destruct (executeRequest _ _ _ w) as [[res|err] w1] eqn:Hex.
    + apply executeRequest_inl in Hex as (reply & _ & -> & ->).
      rewrite deferClose_run.
      repeat case_match; simpl;
        try (eapply balanced_bracket, balanced_refl).
      eapply balanced_bracket, FetchAppByClientAppID_groups_balanced.
    + apply executeRequest_inr in Hex as ->. apply balanced_served_none.
  - intros groupID appID w. unfold Export.
    unfold mbind, M_bind.
    destruct (executeRequest _ _ _ w) as [[res|err] w1] eqn:Hex.
    + apply executeRequest_inl in Hex as (reply & _ & -> & ->).
      destruct (negb _).
      { rewrite deferClose_run. simpl. eapply balanced_bracket, balanced_refl. }
      destruct (mime_ParseMediaType _) as [[mediatype params]|msg]; simpl.
      * destruct (String.length _ =? 0); simpl.
        { eapply balanced_bracket, balanced_refl. }
        split_and!; [done..|].
        intros Hwf Hin. rewrite Forall_forall in Hwf.
        specialize (Hwf _ Hin). lia.
      * eapply balanced_bracket, balanced_refl.
    + apply executeRequest_inr in Hex as ->. apply balanced_served_none.
Qed.

(** *** The search of [FetchAppByClientAppID] *)

Lemma findAppByClientAppID_passedOver (apps : list (option App)) (clientAppID : string) :
  Forall (passedOver clientAppID) apps →
  findAppByClientAppID apps clientAppID = Return None.
Proof.
  induction 1 as [|entry apps (app & -> & Hne) _ IH]; simpl; [done|].
  apply String.eqb_neq in Hne. by rewrite Hne.
Qed.

Lemma findAppByClientAppID_first
    (skipped behind : list (option App)) (app : App) (clientAppID : string) :
  Forall (passedOver clientAppID) skipped →
  ClientAppID app = clientAppID →
  findAppByClientAppID (skipped ++ Some app :: behind) clientAppID = Return (Some app).
Proof.
  intros Hskipped Happ.
  induction Hskipped as [|entry skipped (other & -> & Hne) _ IH]; simpl.
  - apply String.eqb_eq in Happ. by rewrite Happ.
  - apply String.eqb_neq in Hne. by rewrite Hne.
Qed.

(** A nil entry reached by the scan is dereferenced: the scan panics. *)
Remark findAppByClientAppID_nil_entry
    (skipped behind : list (option App)) (clientAppID : string) :
  Forall (passedOver clientAppID) skipped →
  findAppByClientAppID (skipped ++ None :: behind) clientAppID = Panicked nilDereference.
Proof.
  induction 1 as [|entry skipped (other & -> & Hne) _ IH]; simpl; [done|].
  apply String.eqb_neq in Hne. by rewrite Hne.
Qed.

Lemma fetchAppsByGroupID_requests (groupID : string) (w : World) :
  requests (fetchAppsByGroupID groupID w).2 = requests w ++ [appsRequest groupID].
Proof.
  unfold fetchAppsByGroupID. unfold mbind, M_bind.
  pose proof (executeRequest_requests MethodGet
    (Sprintf quoteNonASCII appsByGroupIDRoute [groupID]) noOptions w) as Hreq.
  destruct (executeRequest _ _ _ w) as [[res|err] w1]; [|done].
  rewrite deferClose_run. simpl in *. by repeat case_match.
Qed.

(** [fetchAppsByGroupID] once the [Client] has answered. *)
Lemma fetchAppsByGroupID_answer (groupID : string) (w w1 : World) (res : Response) :
  executeRequest MethodGet
    (Sprintf quoteNonASCII appsByGroupIDRoute [groupID]) noOptions w = (inl res, w1) →
  fetchAppsByGroupID groupID w =
  (if negb (StatusCode res =? StatusOK)%Z then
     if (StatusCode res =? StatusNotFound)%Z then Return []
     else Fail (UnmarshalReader (reader (Body res)))
   else
     match json_Decode_Apps (reader (Body res)) with
     | inr err => Fail (decodeError_error err)
     | inl apps => Return apps
     end,
   released w1 (handle (Body res))).
Proof.
  intros Hres. unfold fetchAppsByGroupID. unfold mbind, M_bind.
  rewrite Hres, deferClose_run. by repeat case_match.
Qed.

Lemma Misses_requests (clientAppID : string) (groupIDs : list string) (w w' : World) :
  Misses clientAppID groupIDs w w' →
  requests w' = requests w ++ (appsRequest <$> groupIDs).
Proof.
  induction 1 as [w|g rest apps w w1 w2 Hfetch _ _ IH]; simpl.
  - by rewrite app_nil_r.
  - pose proof (fetchAppsByGroupID_requests g w) as Hreq.
    rewrite Hfetch in Hreq. simpl in Hreq.
    by rewrite IH, Hreq, <- List.app_assoc.
Qed.

(** Groups that miss are gone through, in order, and the loop goes on
    behind them. *)
Lemma FetchAppByClientAppID_groups_misses
    (clientAppID : string) (before rest : list string) (w w' : World) :
  Misses clientAppID before w w' →
  FetchAppByClientAppID_groups (before ++ rest) clientAppID w =
  FetchAppByClientAppID_groups rest clientAppID w'.
Proof.
  induction 1 as [w|g gs apps w w1 w2 Hfetch Hover _ IH]; simpl; [done|].
  unfold mbind, M_bind. rewrite Hfetch.
  by rewrite (findAppByClientAppID_passedOver _ _ Hover).
Qed.

(** [FetchAppByClientAppID] once the profile is there. *)
Lemma FetchAppByClientAppID_profile
    (clientAppID : string) (w w1 : World) (res : Response) (profileData : UserProfile) :
  executeRequest MethodGet userProfileRoute noOptions w = (inl res, w1) →
  StatusCode res = StatusOK →
  json_Decode_UserProfile (reader (Body res)) = inl profileData →
  FetchAppByClientAppID clientAppID w =
  deferClose (Body res)
    (FetchAppByClientAppID_groups (AllGroupIDs profileData) clientAppID) w1.
Proof.
  intros Hres Hok Hprofile. unfold FetchAppByClientAppID.
  unfold mbind at 1. unfold M_bind at 1. rewrite Hres.
  apply Z.eqb_eq in Hok.
  rewrite !deferClose_run, Hok, Hprofile. reflexivity.
Qed.

Lemma executeRequest_profile_requests (w w1 : World) (res : Response) :
  executeRequest MethodGet userProfileRoute noOptions w = (inl res, w1) →
  requests w1 = requests w ++ [profileRequest].
Proof. intros Hres. by apply executeRequest_inl in Hres as (reply & _ & _ & ->). Qed.

Lemma notFound_text (clientAppID : string) :
  Errorf "unable to find app with ID: %q" [clientAppID] =
  errorString ("unable to find app with ID: " +:+ Quote quoteNonASCII clientAppID).
Proof. unfold Errorf. simpl. by rewrite append_empty_r. Qed.

(** C2, as amended.  With the profile decoded, the groups of
    [AllGroupIDs] are asked one after the other, in that order.  When
    the groups before one all miss, and the list of that one holds an
    app with the requested [ClientAppID] behind entries that are passed
    over (apps, not nil, with another ID), that app is returned and no
    later group is asked.  When all groups miss, the operation fails
    with the text [unable to find app with ID: ] followed by the ID as
    [%q] renders it, which for an ID of printable ASCII characters
    other than the double quote and the backslash is the ID between
    double quotes. *)
Theorem FetchAppByClientAppID_search
    (clientAppID : string) (w w1 : World) (res : Response) (profileData : UserProfile) :
  executeRequest MethodGet userProfileRoute noOptions w = (inl res, w1) →
  StatusCode res = StatusOK →
  json_Decode_UserProfile (reader (Body res)) = inl profileData →
  (∀ before groupID after skipped app behind w2 w3,
     AllGroupIDs profileData = before ++ groupID :: after →
     Misses clientAppID before w1 w2 →
     fetchAppsByGroupID groupID w2 = (Return (skipped ++ Some app :: behind), w3) →
     Forall (passedOver clientAppID) skipped →
     ClientAppID app = clientAppID →
     FetchAppByClientAppID clientAppID w =
       (Return app, released w3 (handle (Body res))) ∧
     requests w3 =
       requests w ++ profileRequest :: (appsRequest <$> before ++ [groupID])) ∧
  (∀ w2,
     Misses clientAppID (AllGroupIDs profileData) w1 w2 →
     FetchAppByClientAppID clientAppID w =
       (Fail (errorString ("unable to find app with ID: "
                             +:+ Quote quoteNonASCII clientAppID)),
        released w2 (handle (Body res))) ∧
     requests w2 =
       requests w ++ profileRequest :: (appsRequest <$> AllGroupIDs profileData)) ∧
  (verbatim clientAppID = true →
     Quote quoteNonASCII clientAppID = String dquote (clientAppID +:+ String dquote "")).
Proof.
  intros Hres Hok Hprofile.
  pose proof (executeRequest_profile_requests _ _ _ Hres) as Hw1.
  rewrite (FetchAppByClientAppID_profile clientAppID _ _ _ _ Hres Hok Hprofile).
  rewrite deferClose_run. split_and!.
  - intros before groupID after skipped app behind w2 w3 Hgroups Hbefore Hfetch Hskipped Happ.
    rewrite Hgroups, (FetchAppByClientAppID_groups_misses _ _ _ _ _ Hbefore).
    simpl. unfold mbind, M_bind. rewrite Hfetch.
    rewrite (findAppByClientAppID_first _ _ _ _ Hskipped Happ). simpl.
    split; [done|].
    pose proof (fetchAppsByGroupID_requests groupID w2) as Hreq.
    rewrite Hfetch in Hreq. simpl in Hreq.
    rewrite Hreq, (Misses_requests _ _ _ _ Hbefore), Hw1, fmap_app.
    simpl. by rewrite <- !List.app_assoc.
  - intros w2 Hall.
    rewrite <- (app_nil_r (AllGroupIDs profileData)) at 1 2.
    rewrite (FetchAppByClientAppID_groups_misses _ _ _ _ _ Hall).
    simpl. rewrite notFound_text. split; [done|].
    rewrite (Misses_requests _ _ _ _ Hall), Hw1. by rewrite <- List.app_assoc.
  - apply Quote_verbatim.
Qed.

(** C3. The group requests of [FetchAppByClientAppID], once the profile
    is decoded, the groups before [groupID] have missed and the
    [Client] has answered the request for [groupID].  On status 404
    [fetchAppsByGroupID] returns an empty list and no error, and the
    search goes on with the groups after [groupID].  On any status
    other than 200 and 404 the operation returns what [UnmarshalReader]
    makes of that body, and on 200 with a list that fails to decode it
    returns the decoder's error; in both cases no group after [groupID]
    is asked. *)
Theorem FetchAppByClientAppID_group_errors
    (clientAppID : string) (w w1 w2 w3 : World) (res gres : Response)
    (profileData : UserProfile) (before after : list string) (groupID : string) :
  executeRequest MethodGet userProfileRoute noOptions w = (inl res, w1) →
  StatusCode res = StatusOK →
  json_Decode_UserProfile (reader (Body res)) = inl profileData →
  AllGroupIDs profileData = before ++ groupID :: after →
  Misses clientAppID before w1 w2 →
  executeRequest MethodGet
    (Sprintf quoteNonASCII appsByGroupIDRoute [groupID]) noOptions w2 = (inl gres, w3) →
  let w4 := released w3 (handle (Body gres)) in
  let asked := requests w ++ profileRequest :: (appsRequest <$> before ++ [groupID]) in
  (StatusCode gres = StatusNotFound →
     fetchAppsByGroupID groupID w2 = (Return [], w4) ∧
     FetchAppByClientAppID clientAppID w =
       deferClose (Body res) (FetchAppByClientAppID_groups after clientAppID) w4) ∧
  (StatusCode gres ≠ StatusOK → StatusCode gres ≠ StatusNotFound →
     FetchAppByClientAppID clientAppID w =
       (Fail (UnmarshalReader (reader (Body gres))), released w4 (handle (Body res))) ∧
     requests (FetchAppByClientAppID clientAppID w).2 = asked) ∧
  (StatusCode gres = StatusOK →
     ∀ d, json_Decode_Apps (reader (Body gres)) = inr d →
     FetchAppByClientAppID clientAppID w =
       (Fail (decodeError_error d), released w4 (handle (Body res))) ∧
     requests (FetchAppByClientAppID clientAppID w).2 = asked).
Proof.
  intros Hres Hok Hprofile Hgroups Hbefore Hgres w4 asked.
  pose proof (executeRequest_profile_requests _ _ _ Hres) as Hw1.
  assert (requests w4 = asked) as Hasked.
  { subst w4 asked. simpl.
    apply executeRequest_inl in Hgres as (reply & _ & _ & ->). simpl.
    rewrite (Misses_requests _ _ _ _ Hbefore), Hw1, fmap_app.
    simpl. by rewrite <- !List.app_assoc. }
  rewrite (FetchAppByClientAppID_profile clientAppID _ _ _ _ Hres Hok Hprofile).
  rewrite Hgroups, !deferClose_run.
  rewrite (FetchAppByClientAppID_groups_misses _ _ _ _ _ Hbefore).
  cbn [FetchAppByClientAppID_groups]. unfold mbind, M_bind.
  rewrite (fetchAppsByGroupID_answer _ _ _ _ Hgres). fold w4.
  split_and!.
  - intros H404. by rewrite H404.
  - intros Hne200 Hne404.
    apply Z.eqb_neq in Hne200, Hne404. by rewrite Hne200, Hne404.
  - intros H200 d Hd.
    apply Z.eqb_eq in H200. by rewrite H200, Hd.
Qed.

End Claims.

(** ** Further properties of stitch.go *)

Section Further.
Context `{Platform} `{Client}.

(** *** The scan of one list *)

(** The scan returns an app exactly when that app has the requested
    [ClientAppID] and every entry in front of it is an app, not nil,
    with another ID: it is the first match, and nothing nil is met on the
    way. *)
Theorem findAppByClientAppID_found
    (apps : list (option App)) (clientAppID : string) (app : App) :
  findAppByClientAppID apps clientAppID = Return (Some app) ↔
  ∃ skipped behind,
    apps = skipped ++ Some app :: behind ∧
    Forall (passedOver clientAppID) skipped ∧
    ClientAppID app = clientAppID.
Proof.
  split.
  - induction apps as [|[first|] apps IH]; simpl; [done| |done].
    destruct (String.eqb_spec (ClientAppID first) clientAppID) as [Heq|Hne].
    + intros [= ->]. exists [], apps. by split_and!.
    + intros Hrest. destruct (IH Hrest) as (skipped & behind & -> & Hskipped & Happ).
      exists (Some first :: skipped), behind. split_and!; [done| |done].
      apply Forall_cons. split; [by exists first|done].
  - intros (skipped & behind & -> & Hskipped & Happ).
    by apply findAppByClientAppID_first.
Qed.

(** The scan returns nil exactly when every entry of the list is an app,
    not nil, with another ID; in particular on the empty list. *)
Theorem findAppByClientAppID_nil_result
    (apps : list (option App)) (clientAppID : string) :
  findAppByClientAppID apps clientAppID = Return None ↔
  Forall (passedOver clientAppID) apps.
Proof.
  split; [|apply findAppByClientAppID_passedOver].
  induction apps as [|[first|] apps IH]; simpl; [by constructor| |done].
  destruct (String.eqb_spec (ClientAppID first) clientAppID) as [Heq|Hne]; [done|].
  intros Hrest. apply Forall_cons. split; [by exists first|by apply IH].
Qed.

(** The scan panics exactly when a nil entry stands in the list with no
    match in front of it, and the panic is the nil dereference; the scan
    never returns an error. *)
Theorem findAppByClientAppID_panics
    (apps : list (option App)) (clientAppID : string) :
  (∀ msg,
     findAppByClientAppID apps clientAppID = Panicked msg ↔
     msg = nilDereference ∧
     ∃ skipped behind,
       apps = skipped ++ None :: behind ∧ Forall (passedOver clientAppID) skipped) ∧
  (∀ err, findAppByClientAppID apps clientAppID ≠ Fail err).
Proof.
  split.
  - intros msg. split.
    + induction apps as [|[first|] apps IH]; simpl; [done| |].
      * destruct (String.eqb_spec (ClientAppID first) clientAppID) as [Heq|Hne]; [done|].
        intros Hrest. destruct (IH Hrest) as (-> & skipped & behind & -> & Hskipped).
        split; [done|]. exists (Some first :: skipped), behind. split; [done|].
        apply Forall_cons. split; [by exists first|done].
      * intros [= <-]. split; [done|]. exists [], apps. by split.
    + intros (-> & skipped & behind & -> & Hskipped).
      by apply findAppByClientAppID_nil_entry.
  - intros err. induction apps as [|[first|] apps IH]; simpl; [done| |done].
    by destruct (String.eqb (ClientAppID first) clientAppID).
Qed.

(** *** The lookup as a whole *)

Lemma findAppByClientAppID_id
    (apps : list (option App)) (clientAppID : string) (app : App) :
  findAppByClientAppID apps clientAppID = Return (Some app) →
  ClientAppID app = clientAppID.
Proof.
  induction apps as [|[first|] apps IH]; simpl; [done| |done].
  destruct (String.eqb_spec (ClientAppID first) clientAppID) as [Heq|Hne]; [|done].
  by intros [= <-].
Qed.

Lemma FetchAppByClientAppID_groups_id
    (groupIDs : list string) (clientAppID : string) (w w' : World) (app : App) :
  FetchAppByClientAppID_groups groupIDs clientAppID w = (Return app, w') →
  ClientAppID app = clientAppID.
Proof.
  revert w. induction groupIDs as [|g rest IH]; intros w; simpl; [done|].
  unfold mbind, M_bind.
  destruct (fetchAppsByGroupID g w) as [[apps|err|msg] w1]; [|done..].
  destruct (findAppByClientAppID apps clientAppID) as [[found|]|err|msg] eqn:Hscan;
    [|by apply IH|done..].
  intros [= <- _]. by eapply findAppByClientAppID_id.
Qed.

(** Whatever the [Client] answers and whatever the codecs decode, an app
    that [FetchAppByClientAppID] returns has the requested
    [ClientAppID]. *)
Theorem FetchAppByClientAppID_sound
    (clientAppID : string) (w w' : World) (app : App) :
  FetchAppByClientAppID clientAppID w = (Return app, w') →
  ClientAppID app = clientAppID.
Proof.
  unfold FetchAppByClientAppID. unfold mbind at 1. unfold M_bind at 1.
  destruct (executeRequest _ _ _ w) as [[res|err] w1]; [|done].
  rewrite deferClose_run.
  destruct (negb _); [done|].
  destruct (json_Decode_UserProfile _) as [profileData|d]; [|done].
  destruct (FetchAppByClientAppID_groups _ _ w1) as [r w2] eqn:Hloop. simpl.
  intros [= -> _]. by eapply FetchAppByClientAppID_groups_id.
Qed.

Lemma FetchAppByClientAppID_groups_asked
    (groupIDs : list string) (clientAppID : string) (w : World) :
  ∃ n, n ≤ length groupIDs ∧
       requests (FetchAppByClientAppID_groups groupIDs clientAppID w).2 =
       requests w ++ (appsRequest <$> take n groupIDs).
Proof.
  revert w. induction groupIDs as [|g rest IH]; intros w; simpl.
  - exists 0. split; [done|]. by rewrite app_nil_r.
  - unfold mbind, M_bind.
    pose proof (fetchAppsByGroupID_requests g w) as Hreq.
    destruct (fetchAppsByGroupID g w) as [r w1]. simpl in Hreq.
    assert (∃ n, n ≤ S (length rest) ∧
                 requests w1 = requests w ++ (appsRequest <$> take n (g :: rest))) as Hone.
    { exists 1. split; [lia|]. simpl. by destruct rest. }
    destruct r as [apps|err|msg]; [|done..].
    destruct (findAppByClientAppID apps clientAppID) as [[found|]|err|msg]; try done.
    destruct (IH w1) as (n & Hn & Hrest).
    exists (S n). split; [lia|].
    rewrite Hrest, Hreq. simpl. by rewrite <- List.app_assoc.
Qed.


(** When the profile request is answered with a status other than 200,
    [FetchAppByClientAppID] returns what [UnmarshalReader] makes of the
    body; when it is answered with 200 and a body that does not decode,
    it returns the decoder's error.  In both cases the body is closed
    and no group is asked. *)
Theorem FetchAppByClientAppID_profile_errors
    (clientAppID : string) (w w1 : World) (res : Response) :
  executeRequest MethodGet userProfileRoute noOptions w = (inl res, w1) →
  (StatusCode res ≠ StatusOK →
     FetchAppByClientAppID clientAppID w =
       (Fail (UnmarshalReader (reader (Body res))), released w1 (handle (Body res))) ∧
     requests (FetchAppByClientAppID clientAppID w).2 = requests w ++ [profileRequest]) ∧
  (StatusCode res = StatusOK →
     ∀ d, json_Decode_UserProfile (reader (Body res)) = inr d →
     FetchAppByClientAppID clientAppID w =
       (Fail (decodeError_error d), released w1 (handle (Body res))) ∧
     requests (FetchAppByClientAppID clientAppID w).2 = requests w ++ [profileRequest]).
Proof.
  intros Hres.
  pose proof (executeRequest_profile_requests _ _ _ Hres) as Hw1.
  unfold FetchAppByClientAppID. unfold mbind, M_bind.
  rewrite Hres, deferClose_run. split.
  - intros Hne. apply Z.eqb_neq in Hne. rewrite Hne. simpl. by split.
  - intros Hok d Hd. apply Z.eqb_eq in Hok. rewrite Hok, Hd. simpl. by split.
Qed.

(** *** Failures of the [Client] *)

(** When [ExecuteRequest] itself returns an error, every operation hands
    that error on as it is, and no body is handed out or closed. *)
Theorem transport_failure_propagates :
  (∀ authProvider body w err w1,
     json_Marshal (provider_Payload authProvider) = inl body →
     executeRequest MethodPost
       (Sprintf quoteNonASCII authProviderLoginRoute [provider_Type authProvider])
       {| opt_Body := Some body;
          opt_Header := {[ "Content-Type" := ["application/json"] ]} |} w = (inr err, w1) →
     Authenticate authProvider w = (Fail err, w1)) ∧
  (∀ groupID appID w err w1,
     executeRequest MethodGet
       (Sprintf quoteNonASCII appExportRoute [groupID; appID]) noOptions w = (inr err, w1) →
     Export groupID appID w = (Fail err, w1)) ∧
  (∀ groupID appID appData strategy w err w1,
     invokeImportRoute groupID appID appData strategy false w = (inr err, w1) →
     Import groupID appID appData strategy w = (Some err, w1)) ∧
  (∀ groupID appID appData strategy w err w1,
     invokeImportRoute groupID appID appData strategy true w = (inr err, w1) →
     Diff groupID appID appData strategy w = (Fail err, w1)) ∧
  (∀ groupID w err w1,
     executeRequest MethodGet
       (Sprintf quoteNonASCII appsByGroupIDRoute [groupID]) noOptions w = (inr err, w1) →
     fetchAppsByGroupID groupID w = (Fail err, w1)) ∧
  (∀ clientAppID w err w1,
     executeRequest MethodGet userProfileRoute noOptions w = (inr err, w1) →
     FetchAppByClientAppID clientAppID w = (Fail err, w1)) ∧
  (∀ method path options w err w1,
     executeRequest method path options w = (inr err, w1) →
     opened w1 = opened w ∧ closed w1 = closed w).
Proof.
  split_and!.
  - intros authProvider body w err w1 Hbody Hex.
    unfold Authenticate. rewrite Hbody. unfold mbind, M_bind. by rewrite Hex.
  - intros groupID appID w err w1 Hex.
    unfold Export. unfold mbind, M_bind. by rewrite Hex.
  - intros groupID appID appData strategy w err w1 Hex.
    unfold Import. unfold mbind, M_bind. by rewrite Hex.
  - intros groupID appID appData strategy w err w1 Hex.
    unfold Diff. unfold mbind, M_bind. by rewrite Hex.
  - intros groupID w err w1 Hex.
    unfold fetchAppsByGroupID. unfold mbind, M_bind. by rewrite Hex.
  - intros clientAppID w err w1 Hex.
    unfold FetchAppByClientAppID. unfold mbind, M_bind. by rewrite Hex.
  - intros method path options w err w1 Hex.
    apply executeRequest_inr in Hex as ->. simpl. by rewrite app_nil_r.
Qed.

(** Any failure of a group request ends the lookup: when the groups in
    front have missed and [fetchAppsByGroupID] fails for a group, be it
    on the request itself, on the status or on the decoding,
    [FetchAppByClientAppID] returns that very error, closes the profile
    body, and asks no group behind. *)
Theorem FetchAppByClientAppID_stops_at_failure
    (clientAppID : string) (w w1 w2 w3 : World) (res : Response)
    (profileData : UserProfile) (before after : list string) (groupID : string)
    (err : error) :
  executeRequest MethodGet userProfileRoute noOptions w = (inl res, w1) →
  StatusCode res = StatusOK →
  json_Decode_UserProfile (reader (Body res)) = inl profileData →
  AllGroupIDs profileData = before ++ groupID :: after →
  Misses clientAppID before w1 w2 →
  fetchAppsByGroupID groupID w2 = (Fail err, w3) →
  FetchAppByClientAppID clientAppID w = (Fail err, released w3 (handle (Body res))) ∧
  requests (FetchAppByClientAppID clientAppID w).2 =
    requests w ++ profileRequest :: (appsRequest <$> before ++ [groupID]).
Proof.
  intros Hres Hok Hprofile Hgroups Hbefore Hfetch.
  pose proof (executeRequest_profile_requests _ _ _ Hres) as Hw1.
  pose proof (fetchAppsByGroupID_requests groupID w2) as Hreq.
  rewrite Hfetch in Hreq. simpl in Hreq.
  rewrite (FetchAppByClientAppID_profile clientAppID _ _ _ _ Hres Hok Hprofile).
  rewrite Hgroups, deferClose_run.
  rewrite (FetchAppByClientAppID_groups_misses _ _ _ _ _ Hbefore).
  cbn [FetchAppByClientAppID_groups]. unfold mbind, M_bind. rewrite Hfetch. simpl.
  split; [done|].
  rewrite Hreq, (Misses_requests _ _ _ _ Hbefore), Hw1, fmap_app.
  simpl. by rewrite <- !List.app_assoc.
Qed.

(** A nil entry makes the lookup panic: when the groups in front have
    missed and the list of a group holds a nil entry with no match in
    front of it, [FetchAppByClientAppID] panics with the nil
    dereference; the deferred [Close] of the profile body has run, and
    no group behind is asked. *)
Theorem FetchAppByClientAppID_nil_entry_panics
    (clientAppID : string) (w w1 w2 w3 : World) (res : Response)
    (profileData : UserProfile) (before after : list string) (groupID : string)
    (skipped behind : list (option App)) :
  executeRequest MethodGet userProfileRoute noOptions w = (inl res, w1) →
  StatusCode res = StatusOK →
  json_Decode_UserProfile (reader (Body res)) = inl profileData →
  AllGroupIDs profileData = before ++ groupID :: after →
  Misses clientAppID before w1 w2 →
  fetchAppsByGroupID groupID w2 = (Return (skipped ++ None :: behind), w3) →
  Forall (passedOver clientAppID) skipped →
  FetchAppByClientAppID clientAppID w =
    (Panicked nilDereference, released w3 (handle (Body res))) ∧
  requests (FetchAppByClientAppID clientAppID w).2 =
    requests w ++ profileRequest :: (appsRequest <$> before ++ [groupID]).
Proof.
  intros Hres Hok Hprofile Hgroups Hbefore Hfetch Hskipped.
  pose proof (executeRequest_profile_requests _ _ _ Hres) as Hw1.
  pose proof (fetchAppsByGroupID_requests groupID w2) as Hreq.
  rewrite Hfetch in Hreq. simpl in Hreq.
  rewrite (FetchAppByClientAppID_profile clientAppID _ _ _ _ Hres Hok Hprofile).
  rewrite Hgroups, deferClose_run.
  rewrite (FetchAppByClientAppID_groups_misses _ _ _ _ _ Hbefore).
  cbn [FetchAppByClientAppID_groups]. unfold mbind, M_bind. rewrite Hfetch.
  rewrite (findAppByClientAppID_nil_entry _ _ _ Hskipped). simpl.
  split; [done|].
  rewrite Hreq, (Misses_requests _ _ _ _ Hbefore), Hw1, fmap_app.
  simpl. by rewrite <- !List.app_assoc.
Qed.

(** *** Diff *)

(** [Diff], once the [Client] has answered: on status 200 it returns the
    decoded list of strings as it is, or the decoder's error when the
    body does not decode; on any other status, 204 included, it returns
    what [UnmarshalReader] makes of the body.  The body is closed in
    each case, and a list is returned only on status 200. *)
Theorem Diff_result (groupID appID appData strategy : string) (w w1 : World)
    (res : Response) :
  invokeImportRoute groupID appID appData strategy true w = (inl res, w1) →
  (StatusCode res = StatusOK →
     (∀ diffs, json_Decode_strings (reader (Body res)) = inl diffs →
        Diff groupID appID appData strategy w =
          (Return diffs, released w1 (handle (Body res)))) ∧
     (∀ d, json_Decode_strings (reader (Body res)) = inr d →
        Diff groupID appID appData strategy w =
          (Fail (decodeError_error d), released w1 (handle (Body res))))) ∧
  (StatusCode res ≠ StatusOK →
     Diff groupID appID appData strategy w =
       (Fail (UnmarshalReader (reader (Body res))), released w1 (handle (Body res)))) ∧
  (∀ diffs, (Diff groupID appID appData strategy w).1 = Return diffs →
     StatusCode res = StatusOK ∧
     json_Decode_strings (reader (Body res)) = inl diffs).
Proof.
  intros Hres. unfold Diff. unfold mbind, M_bind. rewrite Hres, deferClose_run.
  destruct (Z.eqb_spec (StatusCode res) StatusOK) as [Hok|Hne]; simpl.
  - split_and!; [|done|].
    + intros _. split; [by intros diffs ->|by intros d ->].
    + intros diffs. destruct (json_Decode_strings _); simpl; [|done].
      by intros [= ->].
  - split_and!; [done|done|done].
Qed.

(** *** Export *)

(** What [Export] returns with a nil error is never an empty filename:
    the [Client] answered 200, the Content-Disposition header parsed,
    the filename is its [filename] parameter, and the body is the one of
    that response. *)
Theorem Export_sound (groupID appID : string) (w w' : World)
    (filename : string) (body : ReadCloser) :
  Export groupID appID w = (Return (filename, body), w') →
  filename ≠ "" ∧
  ∃ reply mediatype params,
    ExecuteRequest (requests w)
      {| req_method := MethodGet;
         req_path := Sprintf quoteNonASCII appExportRoute [groupID; appID];
         req_options := noOptions |} = inl reply ∧
    reply_StatusCode reply = StatusOK ∧
    body = Body (respond w reply) ∧
    mime_ParseMediaType (Header_Get (reply_Header reply) "Content-Disposition")
      = inl (mediatype, params) ∧
    params !! "filename" = Some filename.
Proof.
  unfold Export. unfold mbind, M_bind.
  destruct (executeRequest _ _ _ w) as [[res|err] w1] eqn:Hex; [|done].
  apply executeRequest_inl in Hex as (reply & Hreply & -> & ->).
  destruct (Z.eqb_spec (StatusCode (respond w reply)) StatusOK) as [Hok|Hne]; simpl;
    [|by rewrite deferClose_run].
  destruct (mime_ParseMediaType _) as [[mediatype params]|msg] eqn:Hparse; [|done].
  destruct (params !! "filename") as [name|] eqn:Hname; simpl; [|done].
  destruct name as [|c rest]; simpl; [done|].
  intros [= <- <- _]. split; [done|].
  exists reply, mediatype, params. by split_and!.
Qed.

(** On status 200 with a Content-Disposition header that does not parse,
    [Export] closes the body and fails with the error of
    [mime.ParseMediaType]; a response without that header is such a
    case whenever the parser rejects the empty string, which is what it
    is given then. *)
Theorem Export_unparsable_header (groupID appID : string) (w w1 : World)
    (res : Response) (msg : string) :
  executeRequest MethodGet
    (Sprintf quoteNonASCII appExportRoute [groupID; appID]) noOptions w = (inl res, w1) →
  StatusCode res = StatusOK →
  (mime_ParseMediaType (Header_Get (Header res) "Content-Disposition") = inr msg →
     Export groupID appID w = (Fail (mimeError msg), released w1 (handle (Body res)))) ∧
  (Header res !! "Content-Disposition" = None →
     mime_ParseMediaType "" = inr msg →
     Export groupID appID w = (Fail (mimeError msg), released w1 (handle (Body res)))).
Proof.
  intros Hres Hok. apply Z.eqb_eq in Hok.
  assert (mime_ParseMediaType (Header_Get (Header res) "Content-Disposition") = inr msg →
          Export groupID appID w = (Fail (mimeError msg), released w1 (handle (Body res))))
    as Hparse.
  { intros Hparse. unfold Export. unfold mbind, M_bind. by rewrite Hres, Hok, Hparse. }
  split; [done|].
  intros Habsent Hempty. apply Hparse. unfold Header_Get. by rewrite Habsent.
Qed.

(** *** Requests *)

Lemma Export_requests (groupID appID : string) (w : World) :
  requests (Export groupID appID w).2 =
  requests w ++ [{| req_method := MethodGet;
                    req_path := Sprintf quoteNonASCII appExportRoute [groupID; appID];
                    req_options := noOptions |}].
Proof.
  unfold Export. unfold mbind, M_bind.
  pose proof (executeRequest_requests MethodGet
    (Sprintf quoteNonASCII appExportRoute [groupID; appID]) noOptions w) as Hreq.
  destruct (executeRequest _ _ _ w) as [[res|err] w1]; [|done].
  simpl in Hreq. destruct (negb _); [by rewrite deferClose_run|].
  destruct (mime_ParseMediaType _) as [[mediatype params]|msg]; [|done].
  simpl. by destruct (String.length _ =? 0).
Qed.

(** Whatever the arguments and whatever the answer, [Export] sends one
    request: a GET to [/groups/{groupID}/apps/{appID}/export] under the
    admin base URL, without body and without header; the two IDs are put
    in as they are.  The base URL is taken to hold no [%]. *)
Theorem Export_request (groupID appID : string) (w : World) :
  plain adminBaseURL = true →
  requests (Export groupID appID w).2 =
  requests w ++ [{| req_method := "GET";
                    req_path := adminBaseURL +:+ "/groups/" +:+ groupID
                                  +:+ "/apps/" +:+ appID +:+ "/export";
                    req_options := {| opt_Body := None; opt_Header := ∅ |} |}].
Proof.
  intros Hbase. rewrite Export_requests. do 3 f_equal.
  unfold appExportRoute. rewrite Sprintf_plain by done.
  chain. reflexivity.
Qed.

(** Once the payload is marshalled, and whatever the answer,
    [Authenticate] sends one request: a POST to
    [/auth/providers/{type}/login] under the admin base URL, with the
    marshalled payload as body and the single header
    Content-Type: application/json.  The base URL is taken to hold no
    [%]. *)
Theorem Authenticate_request
    (authProvider : AuthenticationProvider) (body : string) (w : World) :
  plain adminBaseURL = true →
  json_Marshal (provider_Payload authProvider) = inl body →
  requests (Authenticate authProvider w).2 =
  requests w ++ [{| req_method := "POST";
                    req_path := adminBaseURL +:+ "/auth/providers/"
                                  +:+ provider_Type authProvider +:+ "/login";
                    req_options :=
                      {| opt_Body := Some body;
                         opt_Header := {[ "Content-Type" := ["application/json"] ]} |} |}].
Proof.
  intros Hbase Hbody.
  assert (Sprintf quoteNonASCII authProviderLoginRoute [provider_Type authProvider] =
          adminBaseURL +:+ "/auth/providers/" +:+ provider_Type authProvider +:+ "/login")
    as Hpath.
  { unfold authProviderLoginRoute. rewrite Sprintf_plain by done. chain. reflexivity. }
  unfold Authenticate. rewrite Hbody, Hpath. unfold mbind, M_bind.
  match goal with
  | |- context [executeRequest ?m ?p ?o w] =>
      pose proof (executeRequest_requests m p o w) as Hreq;
      destruct (executeRequest m p o w) as [[res|err] w1]
  end; simpl in Hreq; [|done].
  rewrite deferClose_run. by repeat case_match.
Qed.

(** The requests of the lookup.  [fetchAppsByGroupID] sends one GET to
    [/groups/{groupID}/apps] under the admin base URL (taken to hold no
    [%]), and [FetchAppByClientAppID] always starts with a GET to
    [/auth/profile] under it; neither has a body or a header. *)
Theorem lookup_requests (w : World) :
  (∀ groupID,
     plain adminBaseURL = true →
     requests (fetchAppsByGroupID groupID w).2 =
     requests w ++ [{| req_method := "GET";
                       req_path := adminBaseURL +:+ "/groups/" +:+ groupID +:+ "/apps";
                       req_options := {| opt_Body := None; opt_Header := ∅ |} |}]) ∧
  (∀ clientAppID,
     ∃ later,
       requests (FetchAppByClientAppID clientAppID w).2 =
       requests w ++ {| req_method := "GET";
                        req_path := adminBaseURL +:+ "/auth/profile";
                        req_options := {| opt_Body := None; opt_Header := ∅ |} |}
                     :: later).
Proof.
  split.
  - intros groupID Hbase. rewrite fetchAppsByGroupID_requests. do 2 f_equal.
    unfold appsRequest. f_equal.
    unfold appsByGroupIDRoute. rewrite Sprintf_plain by done.
    chain. reflexivity.
  - intros clientAppID. unfold FetchAppByClientAppID. unfold mbind at 1. unfold M_bind at 1.
    pose proof (executeRequest_requests MethodGet userProfileRoute noOptions w) as Hreq.
    destruct (executeRequest _ _ _ w) as [[res|err] w1]; simpl in Hreq.
    + rewrite deferClose_run.
      destruct (negb _); [exists []; simpl; by rewrite Hreq|].
      destruct (json_Decode_UserProfile _) as [profileData|d];
        [|exists []; simpl; by rewrite Hreq].
      destruct (FetchAppByClientAppID_groups_asked (AllGroupIDs profileData) clientAppID w1)
        as (n & _ & Hasked).
      exists (appsRequest <$> take n (AllGroupIDs profileData)).
      simpl. rewrite Hasked, Hreq. by rewrite <- List.app_assoc.
    + exists []. simpl. by rewrite Hreq.
Qed.

Lemma Sprintf_strategy (strategy : string) :
  Sprintf quoteNonASCII "?strategy=%s" [strategy] = "?strategy=" +:+ strategy.
Proof. simpl. by rewrite append_empty_r. Qed.

(** The strategy is put into the query string as it is, unescaped:
    [Import] with the strategy [s&diff=true] sends the very request that
    [Diff] sends with the strategy [s]. *)
Theorem Import_strategy_unescaped (groupID appID appData strategy : string) (w : World) :
  requests (Import groupID appID appData (strategy +:+ "&diff=true") w).2 =
  requests (Diff groupID appID appData strategy w).2.
Proof.
  rewrite Import_requests, Diff_requests. unfold invokeImportRoute.
  rewrite !executeRequest_requests, !Sprintf_strategy.
  by rewrite !append_assoc.
Qed.

(** *** Success, read backwards *)

(** [Authenticate] returns a response only when the payload marshalled,
    the [Client] answered the login request with status 200, and the
    body decoded to that response. *)
Theorem Authenticate_sound
    (authProvider : AuthenticationProvider) (w w' : World) (authResponse : AuthResponse) :
  Authenticate authProvider w = (Return authResponse, w') →
  ∃ body reply,
    json_Marshal (provider_Payload authProvider) = inl body ∧
    ExecuteRequest (requests w)
      {| req_method := MethodPost;
         req_path := Sprintf quoteNonASCII authProviderLoginRoute
                       [provider_Type authProvider];
         req_options :=
           {| opt_Body := Some body;
              opt_Header := {[ "Content-Type" := ["application/json"] ]} |} |}
      = inl reply ∧
    reply_StatusCode reply = StatusOK ∧
    json_Decode_AuthResponse (reply_Body reply) = inl authResponse.
Proof.
  unfold Authenticate.
  destruct (json_Marshal _) as [body|msg]; [|done].
  unfold mbind, M_bind.
  destruct (executeRequest _ _ _ w) as [[res|err] w1] eqn:Hex; [|done].
  apply executeRequest_inl in Hex as (reply & Hreply & -> & ->).
  rewrite deferClose_run.
  destruct (Z.eqb_spec (StatusCode (respond w reply)) StatusOK) as [Hok|Hne]; simpl; [|done].
  destruct (json_Decode_AuthResponse _) as [a|d] eqn:Hdecode; simpl; [|done].
  intros [= -> _]. exists body, reply. by split_and!.
Qed.

(** [Import] returns a nil error exactly when the [Client] answered its
    request, and with status 204: a failed request, like any other
    status, gives an error. *)
Theorem Import_nil_iff (groupID appID appData strategy : string) (w : World) :
  (Import groupID appID appData strategy w).1 = None ↔
  ∃ reply,
    ExecuteRequest (requests w)
      {| req_method := MethodPost;
         req_path := Sprintf quoteNonASCII appImportRoute [groupID; appID]
                       +:+ Sprintf quoteNonASCII "?strategy=%s" [strategy];
         req_options := {| opt_Body := Some appData; opt_Header := ∅ |} |} = inl reply ∧
    reply_StatusCode reply = StatusNoContent.
Proof.
  unfold Import, invokeImportRoute. unfold mbind, M_bind.
  destruct (executeRequest _ _ _ w) as [[res|err] w1] eqn:Hex.
  - apply executeRequest_inl in Hex as (reply & Hreply & -> & ->).
    rewrite deferClose_run. rewrite Hreply.
    destruct (Z.eqb_spec (StatusCode (respond w reply)) StatusNoContent) as [Hok|Hne];
      cbn [fst negb].
    + split; [|done]. intros _. by exists reply.
    + split; [done|]. by intros (reply' & [= <-] & Hok).
  - cbn [fst]. split; [done|]. intros (reply & Hreply & _).
    unfold executeRequest in Hex. by rewrite Hreply in Hex.
Qed.

(** *** UnmarshalReader and UnmarshalJSON *)

(** How [UnmarshalReader] goes through [UnmarshalJSON], for a body that
    reads to its end.  When the decoder frames a value and
    [json.Unmarshal] stores it into the zero [errStitchResponseData]
    without error, the result carries what was stored.  When no value
    can be framed, the result carries the body text.  When
    [json.Unmarshal] reports an error, whatever it had stored before is
    dropped and the result carries the body text. *)
Theorem UnmarshalReader_through_UnmarshalJSON (r : Reader) :
  failure r = None →
  (∀ raw d,
     json_readValue (content r) = inl raw →
     json_Unmarshal_data raw {| Error := "" |} = (d, None) →
     UnmarshalReader r = errStitch {| data := d |}) ∧
  (∀ msg,
     json_readValue (content r) = inr msg →
     UnmarshalReader r = errStitch {| data := {| Error := content r |} |}) ∧
  (∀ raw d msg,
     json_readValue (content r) = inl raw →
     json_Unmarshal_data raw {| Error := "" |} = (d, Some msg) →
     UnmarshalReader r = errStitch {| data := {| Error := content r |} |}).
Proof.
  intros Hread. rewrite UnmarshalReader_cases, Hread.
  unfold Decode_ErrStitchResponse, ErrStitchResponse_UnmarshalJSON. simpl.
  split_and!.
  - by intros raw d -> ->.
  - by intros msg ->.
  - by intros raw d msg -> ->.
Qed.

(** *** Every outcome of the lookup *)

Lemma fetchAppsByGroupID_no_panic (groupID : string) (w : World) (msg : string) :
  (fetchAppsByGroupID groupID w).1 ≠ Panicked msg.
Proof.
  unfold fetchAppsByGroupID. unfold mbind, M_bind.
  destruct (executeRequest _ _ _ w) as [[res|err] w1]; [|done].
  rewrite deferClose_run. simpl. by repeat case_match.
Qed.

Lemma findAppByClientAppID_cases (apps : list (option App)) (clientAppID : string) :
  (findAppByClientAppID apps clientAppID = Return None ∧
   Forall (passedOver clientAppID) apps) ∨
  (∃ skipped app behind,
     apps = skipped ++ Some app :: behind ∧
     Forall (passedOver clientAppID) skipped ∧
     ClientAppID app = clientAppID ∧
     findAppByClientAppID apps clientAppID = Return (Some app)) ∨
  (∃ skipped behind,
     apps = skipped ++ None :: behind ∧
     Forall (passedOver clientAppID) skipped ∧
     findAppByClientAppID apps clientAppID = Panicked nilDereference).
Proof.
  induction apps as [|[first|] apps IH]; simpl.
  - left. by split.
  - destruct (String.eqb_spec (ClientAppID first) clientAppID) as [Heq|Hne].
    + right. left. exists [], first, apps. by split_and!.
    + assert (passedOver clientAppID (Some first)) as Hfirst by by exists first.
      destruct IH as [[Hnone Hall]|[(skipped & app & behind & -> & Hskipped & Happ & Hrun)
                                   |(skipped & behind & -> & Hskipped & Hrun)]].
      * left. split; [done|]. by apply Forall_cons.
      * right. left. exists (Some first :: skipped), app, behind.
        split_and!; [done| |done|done]. by apply Forall_cons.
      * right. right. exists (Some first :: skipped), behind.
        split_and!; [done| |done]. by apply Forall_cons.
  - right. right. exists [], apps. by split_and!.
Qed.

Lemma FetchAppByClientAppID_groups_cases
    (groupIDs : list string) (clientAppID : string) (w : World) :
  (∃ w2,
     Misses clientAppID groupIDs w w2 ∧
     FetchAppByClientAppID_groups groupIDs clientAppID w =
       (Fail (Errorf "unable to find app with ID: %q" [clientAppID]), w2)) ∨
  (∃ before groupID after w2 w3,
     groupIDs = before ++ groupID :: after ∧
     Misses clientAppID before w w2 ∧
     ((∃ err,
         fetchAppsByGroupID groupID w2 = (Fail err, w3) ∧
         FetchAppByClientAppID_groups groupIDs clientAppID w = (Fail err, w3)) ∨
      (∃ skipped app behind,
         fetchAppsByGroupID groupID w2 = (Return (skipped ++ Some app :: behind), w3) ∧
         Forall (passedOver clientAppID) skipped ∧
         ClientAppID app = clientAppID ∧
         FetchAppByClientAppID_groups groupIDs clientAppID w = (Return app, w3)) ∨
      (∃ skipped behind,
         fetchAppsByGroupID groupID w2 = (Return (skipped ++ None :: behind), w3) ∧
         Forall (passedOver clientAppID) skipped ∧
         FetchAppByClientAppID_groups groupIDs clientAppID w =
           (Panicked nilDereference, w3)))).
Proof.
  revert w. induction groupIDs as [|g rest IH]; intros w.
  - left. exists w. split; [constructor|done].
  - cbn [FetchAppByClientAppID_groups]. unfold mbind, M_bind.
    pose proof (fetchAppsByGroupID_no_panic g w) as Hcalm.
    destruct (fetchAppsByGroupID g w) as [[apps|err|msg] w1] eqn:Hfetch.
    + destruct (findAppByClientAppID_cases apps clientAppID)
        as [[Hnone Hall]|[(skipped & app & behind & -> & Hskipped & Happ & Hrun)
                         |(skipped & behind & -> & Hskipped & Hrun)]].
      * rewrite Hnone.
        destruct (IH w1) as [(w2 & Hmiss & Hloop)
                            |(before & groupID & after & w2 & w3 & -> & Hmiss & Hrest)].
        -- left. exists w2. split; [by eapply Misses_cons|done].
        -- right. exists (g :: before), groupID, after, w2, w3.
           split_and!; [done|by eapply Misses_cons|done].
      * rewrite Hrun. right. exists [], g, rest, w, w1.
        split_and!; [done|constructor|]. right. left.
        exists skipped, app, behind. by split_and!.
      * rewrite Hrun. right. exists [], g, rest, w, w1.
        split_and!; [done|constructor|]. right. right.
        exists skipped, behind. by split_and!.
    + right. exists [], g, rest, w, w1.
      split_and!; [done|constructor|]. left. by exists err.
    + by destruct (Hcalm msg).
Qed.

(** With the profile decoded, the lookup ends in one of four ways and no
    other.  Either every group missed, and the error is the not-found
    one.  Or the groups in front of some group missed and, at that
    group: the request failed and its error is returned; or its list
    has the requested app behind entries that are passed over, and the
    app is returned; or its list has a nil entry behind such entries,
    and the lookup panics.  The profile body is closed in each case. *)
Theorem FetchAppByClientAppID_outcomes
    (clientAppID : string) (w w1 : World) (res : Response) (profileData : UserProfile) :
  executeRequest MethodGet userProfileRoute noOptions w = (inl res, w1) →
  StatusCode res = StatusOK →
  json_Decode_UserProfile (reader (Body res)) = inl profileData →
  (∃ w2,
     Misses clientAppID (AllGroupIDs profileData) w1 w2 ∧
     FetchAppByClientAppID clientAppID w =
       (Fail (Errorf "unable to find app with ID: %q" [clientAppID]),
        released w2 (handle (Body res)))) ∨
  (∃ before groupID after w2 w3,
     AllGroupIDs profileData = before ++ groupID :: after ∧
     Misses clientAppID before w1 w2 ∧
     ((∃ err,
         fetchAppsByGroupID groupID w2 = (Fail err, w3) ∧
         FetchAppByClientAppID clientAppID w =
           (Fail err, released w3 (handle (Body res)))) ∨
      (∃ skipped app behind,
         fetchAppsByGroupID groupID w2 = (Return (skipped ++ Some app :: behind), w3) ∧
         Forall (passedOver clientAppID) skipped ∧
         ClientAppID app = clientAppID ∧
         FetchAppByClientAppID clientAppID w =
           (Return app, released w3 (handle (Body res)))) ∨
      (∃ skipped behind,
         fetchAppsByGroupID groupID w2 = (Return (skipped ++ None :: behind), w3) ∧
         Forall (passedOver clientAppID) skipped ∧
         FetchAppByClientAppID clientAppID w =
           (Panicked nilDereference, released w3 (handle (Body res)))))).
Proof.
  intros Hres Hok Hprofile.
  rewrite (FetchAppByClientAppID_profile clientAppID _ _ _ _ Hres Hok Hprofile).
  rewrite deferClose_run.
  destruct (FetchAppByClientAppID_groups_cases (AllGroupIDs profileData) clientAppID w1)
    as [(w2 & Hmiss & ->)
       |(before & groupID & after & w2 & w3 & Hgroups & Hmiss &
         [(err & Hfetch & Hloop)
         |[(skipped & app & behind & Hfetch & Hskipped & Happ & Hloop)
          |(skipped & behind & Hfetch & Hskipped & Hloop)]])].
  - left. by exists w2.
  - right. exists before, groupID, after, w2, w3. split_and!; [done..|].
    left. exists err. by rewrite Hloop.
  - right. exists before, groupID, after, w2, w3. split_and!; [done..|].
    right. left. exists skipped, app, behind. by rewrite Hloop.
  - right. exists before, groupID, after, w2, w3. split_and!; [done..|].
    right. right. exists skipped, behind. by rewrite Hloop.
Qed.


End Further.

(** ** The claims on the test double *)

Import (hints) Mock.

Lemma UnmarshalReader_message_witness :
  failure Mock.sessionReader = None ∧
  UnmarshalReader (H := Mock.platform) Mock.sessionReader
    = errStitch {| data := {| Error := "invalid session" |} |} ∧
  error_Error (H := Mock.platform) (UnmarshalReader (H := Mock.platform) Mock.sessionReader)
    = "error: invalid session".
Proof.
  split; [reflexivity|].
  destruct (UnmarshalReader_message (H := Mock.platform) Mock.sessionReader eq_refl)
    as (msg & Heq & Hdecoded & _ & Htext).
  rewrite (Hdecoded {| data := {| Error := "invalid session" |} |} eq_refl) in Heq, Htext.
  split; assumption.
Defined.

Lemma UnmarshalReader_total_witness :
  failure Mock.htmlReader = None ∧
  UnmarshalReader (H := Mock.platform) Mock.htmlReader
    = errStitch {| data := {| Error := "<html>502 Bad Gateway</html>" |} |}.
Proof.
  split; [reflexivity|].
  destruct (UnmarshalReader_total (H := Mock.platform) Mock.htmlReader) as (Hread & _ & _).
  destruct (Hread eq_refl) as (msg & Heq & Hraw).
  rewrite (Hraw zeroErrStitchResponse
             (jsonError "invalid character looking for beginning of value") eq_refl) in Heq.
  exact Heq.
Defined.

Lemma Authenticate_marshal_failure_witness :
  json_Marshal (Platform := Mock.platform) (provider_Payload (Mock.apiKey None))
    = inr "json: unsupported type: chan int" ∧
  Authenticate (H0 := Mock.unauthorizedClient) (Mock.apiKey None) Mock.world0
    = (Fail (jsonError "json: unsupported type: chan int"), Mock.world0).
Proof.
  split; [reflexivity|].
  apply (Authenticate_marshal_failure (H0 := Mock.unauthorizedClient)
           (Mock.apiKey None) "json: unsupported type: chan int" Mock.world0).
  reflexivity.
Defined.

Lemma import_route_witness :
  plain (adminBaseURL (Platform := Mock.platform)) = true ∧
  requests (Import (H0 := Mock.rejectingClient) "g1" "a1" "zip" "merge" Mock.world0).2
    = [{| req_method := "POST";
          req_path := "/api/admin/v3.0/groups/g1/apps/a1/import?strategy=merge";
          req_options := {| opt_Body := Some "zip"; opt_Header := ∅ |} |}] ∧
  requests (Diff (H0 := Mock.rejectingClient) "g1" "a1" "zip" "merge" Mock.world0).2
    = [{| req_method := "POST";
          req_path := "/api/admin/v3.0/groups/g1/apps/a1/import?strategy=merge&diff=true";
          req_options := {| opt_Body := Some "zip"; opt_Header := ∅ |} |}].
Proof.
  split; [reflexivity|].
  exact (import_route (H := Mock.platform) (H0 := Mock.rejectingClient)
           "g1" "a1" "zip" "merge" Mock.world0 eq_refl).
Defined.

Lemma Import_status_witness :
  (Import (H0 := Mock.rejectingClient) "g1" "a1" "zip" "merge" Mock.world0).1
    = Some (errStitch {| data := {| Error := "strategy not supported" |} |}).
Proof.
  edestruct (Import_status (H := Mock.platform) (H0 := Mock.rejectingClient)
               "g1" "a1" "zip" "merge" Mock.world0) as (_ & Hother & _).
  { reflexivity. }
  destruct Hother as [Heq _]; [discriminate|].
  exact Heq.
Defined.

Lemma Export_result_witness :
  ∃ body w1,
    Export (H0 := Mock.exportClient) "g1" "a1" Mock.world0 = (Return ("app.zip", body), w1) ∧
    closed w1 = [].
Proof.
  edestruct (Export_result (H := Mock.platform) (H0 := Mock.exportClient)
               "g1" "a1" Mock.world0) as (Hok & _).
  { reflexivity. }
  edestruct (Hok eq_refl) as (Hnamed & _).
  { reflexivity. }
  do 2 eexists. apply (Hnamed "app.zip"); [reflexivity|discriminate].
Defined.

Lemma Authenticate_result_witness :
  ∃ err w1,
    Authenticate (H0 := Mock.unauthorizedClient) (Mock.apiKey (Some "{}")) Mock.world0
      = (Fail err, w1) ∧
    error_Error (H := Mock.platform) err
      = "401 Unauthorized: failed to authenticate: error: invalid session".
Proof.
  edestruct (Authenticate_result (H := Mock.platform) (H0 := Mock.unauthorizedClient)
               (Mock.apiKey (Some "{}")) "{}" Mock.world0) as (_ & Hother).
  { reflexivity. }
  { reflexivity. }
  destruct Hother as (err & Hrun & Htext & _); [discriminate|].
  exists err. eexists. split; [exact Hrun | exact Htext].
Defined.

Lemma bodies_closed_witness :
  balanced Mock.world0
    (FetchAppByClientAppID (H := Mock.platform) (H0 := Mock.lookupClient) "x" Mock.world0).2.
Proof.
  destruct (bodies_closed (H := Mock.platform) (H0 := Mock.lookupClient))
    as (_ & _ & _ & _ & Hfetch & _).
  apply Hfetch.
Defined.

Lemma FetchAppByClientAppID_search_witness :
  ∃ w',
    FetchAppByClientAppID (H := Mock.platform) (H0 := Mock.lookupClient) "x" Mock.world0
      = (Return Mock.appX, w') ∧
    req_path <$> requests w' =
      ["/api/admin/v3.0/auth/profile";
       "/api/admin/v3.0/groups/g1/apps";
       "/api/admin/v3.0/groups/g2/apps"].
Proof.
  edestruct (FetchAppByClientAppID_search (H := Mock.platform) (H0 := Mock.lookupClient)
               "x" Mock.world0) as (Hfound & _ & _).
  { reflexivity. }
  { reflexivity. }
  { reflexivity. }
  edestruct (Hfound ["g1"] "g2" [] [Some Mock.appY] Mock.appX []) as (Hrun & Hreq).
  { reflexivity. }
  { eapply Misses_cons; [reflexivity|apply Forall_nil_2|apply Misses_nil]. }
  { reflexivity. }
  { apply Forall_cons. split; [|apply Forall_nil_2].
    exists Mock.appY. split; [reflexivity|discriminate]. }
  { reflexivity. }
  eexists. split; [exact Hrun|].
  exact (f_equal (fmap req_path) Hreq).
Defined.

Lemma FetchAppByClientAppID_group_errors_witness :
  ∃ w',
    FetchAppByClientAppID (H := Mock.platform) (H0 := Mock.brokenClient) "x" Mock.world0
      = (Fail (errStitch {| data := {| Error := "invalid session" |} |}), w') ∧
    req_path <$> requests w' =
      ["/api/admin/v3.0/auth/profile"; "/api/admin/v3.0/groups/g1/apps"].
Proof.
  edestruct (FetchAppByClientAppID_group_errors
               (H := Mock.platform) (H0 := Mock.brokenClient)
               "x" Mock.world0) with (before := @nil string) (groupID := "g1") (after := ["g2"])
    as (_ & Hother & _).
  { reflexivity. }
  { reflexivity. }
  { reflexivity. }
  { reflexivity. }
  { apply Misses_nil. }
  { reflexivity. }
  destruct Hother as (Hrun & Hreq); [discriminate|discriminate|].
  eexists. split; [exact Hrun|]. reflexivity.
Defined.

(** C2, as stated, fails: for the ID a, double quote, b and a profile
    without groups, the text of the error is not the ID between double
    quotes behind the prefix, the quote inside the ID being escaped. *)
Lemma FetchAppByClientAppID_not_found_escapes :
  ∃ err w',
    FetchAppByClientAppID (H := Mock.platform) (H0 := Mock.loneClient) Mock.oddID Mock.world0
      = (Fail err, w') ∧
    error_Error (H := Mock.platform) err
      = "unable to find app with ID: "
          +:+ String dquote (String "a" (String backslash (String dquote
                (String "b" (String dquote ""))))) ∧
    error_Error (H := Mock.platform) err
      ≠ "unable to find app with ID: "
          +:+ String dquote (Mock.oddID +:+ String dquote "").
Proof.
  do 2 eexists. split; [reflexivity|]. split; [reflexivity|discriminate].
Qed.

(** ** The further properties on the test double *)

Lemma findAppByClientAppID_found_witness :
  findAppByClientAppID (H := Mock.platform) [Some Mock.appY; Some Mock.appX] "x"
    = Return (Some Mock.appX).
Proof.
  apply (proj2 (findAppByClientAppID_found (H := Mock.platform)
                  [Some Mock.appY; Some Mock.appX] "x" Mock.appX)).
  exists [Some Mock.appY], []. split_and!; [reflexivity| |reflexivity].
  apply Forall_cons. split; [|apply Forall_nil_2].
  exists Mock.appY. split; [reflexivity|discriminate].
Defined.

Lemma findAppByClientAppID_nil_result_witness :
  findAppByClientAppID (H := Mock.platform) [Some Mock.appY] "x" = Return None.
Proof.
  apply (proj2 (findAppByClientAppID_nil_result (H := Mock.platform) [Some Mock.appY] "x")).
  apply Forall_cons. split; [|apply Forall_nil_2].
  exists Mock.appY. split; [reflexivity|discriminate].
Defined.

Lemma findAppByClientAppID_panics_witness :
  findAppByClientAppID (H := Mock.platform) [Some Mock.appY; None; Some Mock.appX] "x"
    = Panicked nilDereference.
Proof.
  destruct (findAppByClientAppID_panics (H := Mock.platform)
              [Some Mock.appY; None; Some Mock.appX] "x") as [Hpanic _].
  apply (proj2 (Hpanic nilDereference)). split; [reflexivity|].
  exists [Some Mock.appY], [Some Mock.appX]. split; [reflexivity|].
  apply Forall_cons. split; [|apply Forall_nil_2].
  exists Mock.appY. split; [reflexivity|discriminate].
Defined.

Lemma FetchAppByClientAppID_sound_witness :
  ∃ app w',
    FetchAppByClientAppID (H0 := Mock.lookupClient) "x" Mock.world0 = (Return app, w') ∧
    ClientAppID app = "x".
Proof.
  do 2 eexists. split; [reflexivity|].
  eapply (FetchAppByClientAppID_sound (H := Mock.platform) (H0 := Mock.lookupClient)
            "x" Mock.world0).
  reflexivity.
Defined.


Lemma FetchAppByClientAppID_profile_errors_witness :
  ∃ w',
    FetchAppByClientAppID (H0 := Mock.noProfileClient) "x" Mock.world0
      = (Fail (errStitch {| data := {| Error := "invalid session" |} |}), w') ∧
    req_path <$> requests w' = ["/api/admin/v3.0/auth/profile"].
Proof.
  edestruct (FetchAppByClientAppID_profile_errors
               (H := Mock.platform) (H0 := Mock.noProfileClient) "x" Mock.world0)
    as (Hstatus & _).
  { reflexivity. }
  destruct Hstatus as (Hrun & _); [discriminate|].
  eexists. split; [exact Hrun|reflexivity].
Defined.

Lemma transport_failure_propagates_witness :
  ∃ w',
    FetchAppByClientAppID (H := Mock.platform) (H0 := Mock.downClient) "x" Mock.world0
      = (Fail (clientError "dial tcp: connection refused"), w') ∧
    opened w' = [] ∧ closed w' = [].
Proof.
  destruct (transport_failure_propagates (H := Mock.platform) (H0 := Mock.downClient))
    as (_ & _ & _ & _ & _ & Hfetch & Hquiet).
  eexists. split.
  - apply Hfetch. reflexivity.
  - eapply (Hquiet MethodGet userProfileRoute noOptions Mock.world0). reflexivity.
Defined.

Lemma FetchAppByClientAppID_stops_at_failure_witness :
  ∃ w',
    FetchAppByClientAppID (H := Mock.platform) (H0 := Mock.partialClient) "x" Mock.world0
      = (Fail (clientError "dial tcp: connection refused"), w') ∧
    req_path <$> requests w' =
      ["/api/admin/v3.0/auth/profile"; "/api/admin/v3.0/groups/g1/apps"].
Proof.
  edestruct (FetchAppByClientAppID_stops_at_failure
               (H := Mock.platform) (H0 := Mock.partialClient) "x" Mock.world0)
    with (before := @nil string) (groupID := "g1") (after := ["g2"])
    as (Hrun & _).
  { reflexivity. }
  { reflexivity. }
  { reflexivity. }
  { reflexivity. }
  { apply Misses_nil. }
  { reflexivity. }
  eexists. split; [exact Hrun|reflexivity].
Defined.

Lemma FetchAppByClientAppID_nil_entry_panics_witness :
  ∃ w',
    FetchAppByClientAppID (H := Mock.platform) (H0 := Mock.nullClient) "x" Mock.world0
      = (Panicked nilDereference, w') ∧
    closed w' = [1; 0].
Proof.
  edestruct (FetchAppByClientAppID_nil_entry_panics
               (H := Mock.platform) (H0 := Mock.nullClient) "x" Mock.world0)
    with (before := @nil string) (groupID := "g1") (after := ["g2"])
         (skipped := @nil (option Mock.app)) (behind := @nil (option Mock.app))
    as (Hrun & _).
  { reflexivity. }
  { reflexivity. }
  { reflexivity. }
  { reflexivity. }
  { apply Misses_nil. }
  { reflexivity. }
  { apply Forall_nil_2. }
  eexists. split; [exact Hrun|reflexivity].
Defined.

Lemma Diff_result_witness :
  ∃ w',
    Diff (H := Mock.platform) (H0 := Mock.rejectingClient) "g1" "a1" "zip" "merge" Mock.world0
      = (Return ["added service: http"], w') ∧
    closed w' = [0].
Proof.
  edestruct (Diff_result (H := Mock.platform) (H0 := Mock.rejectingClient)
               "g1" "a1" "zip" "merge" Mock.world0) as (Hok & _ & _).
  { reflexivity. }
  destruct (Hok eq_refl) as (Hdecoded & _).
  eexists. split; [apply Hdecoded; reflexivity|reflexivity].
Defined.

Lemma Export_sound_witness :
  ∃ body w',
    Export (H := Mock.platform) (H0 := Mock.exportClient) "g1" "a1" Mock.world0
      = (Return ("app.zip", body), w') ∧
    "app.zip" ≠ "" ∧
    content (reader body) = "PK-archive".
Proof.
  do 2 eexists. split; [reflexivity|].
  edestruct (Export_sound (H := Mock.platform) (H0 := Mock.exportClient)
               "g1" "a1" Mock.world0) as (Hname & _).
  { reflexivity. }
  split; [exact Hname|reflexivity].
Defined.

Lemma Export_unparsable_header_witness :
  ∃ w',
    Export (H := Mock.platform) (H0 := Mock.garbledExportClient) "g1" "a1" Mock.world0
      = (Fail (mimeError "mime: invalid media parameter"), w') ∧
    closed w' = [0].
Proof.
  edestruct (Export_unparsable_header (H := Mock.platform) (H0 := Mock.garbledExportClient)
               "g1" "a1" Mock.world0) as (Hparse & _).
  { reflexivity. }
  { reflexivity. }
  eexists. split; [apply Hparse; reflexivity|reflexivity].
Defined.

Lemma Export_request_witness :
  plain (adminBaseURL (Platform := Mock.platform)) = true ∧
  requests (Export (H0 := Mock.exportClient) "g1" "a1" Mock.world0).2
    = [{| req_method := "GET";
          req_path := "/api/admin/v3.0/groups/g1/apps/a1/export";
          req_options := {| opt_Body := None; opt_Header := ∅ |} |}].
Proof.
  split; [reflexivity|].
  exact (Export_request (H := Mock.platform) (H0 := Mock.exportClient)
           "g1" "a1" Mock.world0 eq_refl).
Defined.

Lemma Authenticate_request_witness :
  requests (Authenticate (H0 := Mock.unauthorizedClient)
              (Mock.apiKey (Some "{}")) Mock.world0).2
    = [{| req_method := "POST";
          req_path := "/api/admin/v3.0/auth/providers/api-key/login";
          req_options :=
            {| opt_Body := Some "{}";
               opt_Header := {[ "Content-Type" := ["application/json"] ]} |} |}].
Proof.
  exact (Authenticate_request (H := Mock.platform) (H0 := Mock.unauthorizedClient)
           (Mock.apiKey (Some "{}")) "{}" Mock.world0 eq_refl eq_refl).
Defined.

Lemma lookup_requests_witness :
  requests (fetchAppsByGroupID (H0 := Mock.lookupClient) "g2" Mock.world0).2
    = [{| req_method := "GET";
          req_path := "/api/admin/v3.0/groups/g2/apps";
          req_options := {| opt_Body := None; opt_Header := ∅ |} |}].
Proof.
  destruct (lookup_requests (H := Mock.platform) (H0 := Mock.lookupClient) Mock.world0)
    as (Hgroup & _).
  exact (Hgroup "g2" eq_refl).
Defined.

Lemma Import_strategy_unescaped_witness :
  requests (Import (H0 := Mock.rejectingClient)
              "g1" "a1" "zip" "merge&diff=true" Mock.world0).2 =
  requests (Diff (H0 := Mock.rejectingClient) "g1" "a1" "zip" "merge" Mock.world0).2.
Proof.
  exact (Import_strategy_unescaped (H := Mock.platform) (H0 := Mock.rejectingClient)
           "g1" "a1" "zip" "merge" Mock.world0).
Defined.

Lemma Authenticate_sound_witness :
  ∃ authResponse w',
    Authenticate (H0 := Mock.loginClient) (Mock.apiKey (Some "{}")) Mock.world0
      = (Return authResponse, w') ∧
    ∃ body, json_Marshal (Platform := Mock.platform) (Some "{}") = inl body.
Proof.
  do 2 eexists. split; [reflexivity|].
  edestruct (Authenticate_sound (H := Mock.platform) (H0 := Mock.loginClient)
               (Mock.apiKey (Some "{}")) Mock.world0) as (body & reply & Hbody & _).
  { reflexivity. }
  exists body. exact Hbody.
Defined.

Lemma Import_nil_iff_witness :
  (Import (H := Mock.platform) (H0 := Mock.acceptingClient)
     "g1" "a1" "zip" "merge" Mock.world0).1 = None.
Proof.
  apply (proj2 (Import_nil_iff (H := Mock.platform) (H0 := Mock.acceptingClient)
                  "g1" "a1" "zip" "merge" Mock.world0)).
  eexists. split; reflexivity.
Defined.

Lemma UnmarshalReader_through_UnmarshalJSON_witness :
  failure Mock.sessionReader = None ∧
  UnmarshalReader (H := Mock.platform) Mock.sessionReader
    = errStitch {| data := {| Error := "invalid session" |} |} ∧
  UnmarshalReader (H := Mock.platform) Mock.htmlReader
    = errStitch {| data := {| Error := "<html>502 Bad Gateway</html>" |} |}.
Proof.
  split; [reflexivity|]. split.
  - destruct (UnmarshalReader_through_UnmarshalJSON (H := Mock.platform)
                Mock.sessionReader eq_refl) as (Hstored & _ & _).
    eapply Hstored; reflexivity.
  - destruct (UnmarshalReader_through_UnmarshalJSON (H := Mock.platform)
                Mock.htmlReader eq_refl) as (_ & Hframe & _).
    eapply Hframe; reflexivity.
Defined.

Lemma FetchAppByClientAppID_outcomes_witness :
  ∃ w',
    FetchAppByClientAppID (H := Mock.platform) (H0 := Mock.loneClient) "x" Mock.world0
      = (Fail (errorString ("unable to find app with ID: " +:+ Mock.quoted "x")), w').
Proof.
  edestruct (FetchAppByClientAppID_outcomes
               (H := Mock.platform) (H0 := Mock.loneClient) "x" Mock.world0)
    as [(w2 & _ & Hrun)|(before & groupID & after & w2 & w3 & Hgroups & _)].
  { reflexivity. }
  { reflexivity. }
  { reflexivity. }
  - eexists. exact Hrun.
  - by destruct before.
Defined.

